(** * go-iouring: ring lifecycle, submission path and completion path

    A shallow embedding of [ring.go], [sqe.go] (the [Prep*] builders),
    [cqe.go], [probe.go] and [internal/sys] of go-iouring.

    The Go [Ring] struct, the three regions it maps and the kernel behind
    the ring descriptor are one explicit [World]; every method of [Ring]
    is a computation in a state monad over that world.  The kernel is an
    oracle ([Kernel]): it answers the system calls, and during an [enter]
    it may rewrite the words of the shared rings that belong to it.  The
    model is sequential: one goroutine runs one operation at a time. *)

From Stdlib Require Import ZArith Lia List Bool.
From stdpp Require Import list.
Local Open Scope Z_scope.

(** ** Fixed-width integers

    Go's [uint8], [uint16], [uint32], [uint64] and [int32] are integers of
    [Z] kept in range by an explicit wrap at every operation that can
    leave the range. *)

Definition u8 (z : Z) : Z := z mod 2 ^ 8.
Definition u16 (z : Z) : Z := z mod 2 ^ 16.
Definition u32 (z : Z) : Z := z mod 2 ^ 32.
Definition u64 (z : Z) : Z := z mod 2 ^ 64.
Definition i32 (z : Z) : Z := (z + 2 ^ 31) mod 2 ^ 32 - 2 ^ 31.

(** ** internal/sys/consts.go *)

Definition IORING_OP_NOP : Z := 0.
Definition IORING_OP_READV : Z := 1.
Definition IORING_OP_WRITEV : Z := 2.
Definition IORING_OP_FSYNC : Z := 3.
Definition IORING_OP_READ_FIXED : Z := 4.
Definition IORING_OP_WRITE_FIXED : Z := 5.
Definition IORING_OP_POLL_ADD : Z := 6.
Definition IORING_OP_POLL_REMOVE : Z := 7.
Definition IORING_OP_SENDMSG : Z := 9.
Definition IORING_OP_RECVMSG : Z := 10.
Definition IORING_OP_TIMEOUT : Z := 11.
Definition IORING_OP_TIMEOUT_REMOVE : Z := 12.
Definition IORING_OP_ACCEPT : Z := 13.
Definition IORING_OP_ASYNC_CANCEL : Z := 14.
Definition IORING_OP_LINK_TIMEOUT : Z := 15.
Definition IORING_OP_CONNECT : Z := 16.
Definition IORING_OP_OPENAT : Z := 18.
Definition IORING_OP_CLOSE : Z := 19.
Definition IORING_OP_STATX : Z := 21.
Definition IORING_OP_READ : Z := 22.
Definition IORING_OP_WRITE : Z := 23.
Definition IORING_OP_SEND : Z := 26.
Definition IORING_OP_RECV : Z := 27.
Definition IORING_OP_SPLICE : Z := 30.
Definition IORING_OP_SHUTDOWN : Z := 34.
Definition IORING_OP_SOCKET : Z := 45.
Definition IORING_OP_LAST : Z := 58.

Definition IOSQE_IO_LINK : Z := 2 ^ 2.
Definition IOSQE_ASYNC : Z := 2 ^ 4.
Definition IOSQE_BUFFER_SELECT : Z := 2 ^ 5.

Definition IORING_SETUP_IOPOLL : Z := 2 ^ 0.
Definition IORING_SETUP_SQPOLL : Z := 2 ^ 1.
Definition IORING_SETUP_SQ_AFF : Z := 2 ^ 2.
Definition IORING_SETUP_CQSIZE : Z := 2 ^ 3.
Definition IORING_SETUP_COOP_TASKRUN : Z := 2 ^ 8.
Definition IORING_SETUP_SINGLE_ISSUER : Z := 2 ^ 12.
Definition IORING_SETUP_DEFER_TASKRUN : Z := 2 ^ 13.

Definition IORING_FEAT_SINGLE_MMAP : Z := 2 ^ 0.
Definition IORING_FEAT_EXT_ARG : Z := 2 ^ 8.

Definition IORING_ENTER_GETEVENTS : Z := 2 ^ 0.
Definition IORING_ENTER_SQ_WAKEUP : Z := 2 ^ 1.
Definition IORING_ENTER_EXT_ARG : Z := 2 ^ 3.

Definition IORING_SQ_NEED_WAKEUP : Z := 2 ^ 0.

Definition IORING_REGISTER_BUFFERS : Z := 0.
Definition IORING_UNREGISTER_BUFFERS : Z := 1.
Definition IORING_REGISTER_FILES : Z := 2.
Definition IORING_UNREGISTER_FILES : Z := 3.
Definition IORING_REGISTER_EVENTFD : Z := 4.
Definition IORING_UNREGISTER_EVENTFD : Z := 5.
Definition IORING_REGISTER_PROBE : Z := 8.

Definition IORING_POLL_ADD_MULTI : Z := 2 ^ 0.
Definition IORING_ACCEPT_MULTISHOT : Z := 2 ^ 0.
Definition IORING_RECV_MULTISHOT : Z := 2 ^ 1.

Definition IORING_OFF_SQ_RING : Z := 0.
Definition IORING_OFF_CQ_RING : Z := 0x8000000.
Definition IORING_OFF_SQES : Z := 0x10000000.

(** Error numbers of package [syscall] that the library names. *)
Definition EINTR : Z := 4.
Definition EAGAIN : Z := 11.
Definition EINVAL : Z := 22.
Definition ETIME : Z := 62.

(** [time.Duration] counts nanoseconds. *)
Definition Millisecond : Z := 1000000.
Definition Second : Z := 1000000000.

(** ** internal/sys/types.go *)

Module SQE.
Record t : Type := mk {
  Opcode : Z;
  Flags : Z;
  Ioprio : Z;
  Fd : Z;
  Off : Z;
  Addr : Z;
  Len : Z;
  OpFlags : Z;
  UserData : Z;
  BufIndex : Z;
  Personality : Z;
  SpliceFdIn : Z;
  Addr3 : Z;
  _pad2 : Z
}.

(** The zero value [SQE{}]. *)
Definition zero : t := mk 0 0 0 0 0 0 0 0 0 0 0 0 0 0.

(** Assignments through the [*SQE] pointer, one per field written by a
    builder. *)
Definition set_Opcode (v : Z) (s : t) : t :=
  mk v (Flags s) (Ioprio s) (Fd s) (Off s) (Addr s) (Len s) (OpFlags s)
     (UserData s) (BufIndex s) (Personality s) (SpliceFdIn s) (Addr3 s) (_pad2 s).
Definition set_Flags (v : Z) (s : t) : t :=
  mk (Opcode s) v (Ioprio s) (Fd s) (Off s) (Addr s) (Len s) (OpFlags s)
     (UserData s) (BufIndex s) (Personality s) (SpliceFdIn s) (Addr3 s) (_pad2 s).
Definition set_Ioprio (v : Z) (s : t) : t :=
  mk (Opcode s) (Flags s) v (Fd s) (Off s) (Addr s) (Len s) (OpFlags s)
     (UserData s) (BufIndex s) (Personality s) (SpliceFdIn s) (Addr3 s) (_pad2 s).
Definition set_Fd (v : Z) (s : t) : t :=
  mk (Opcode s) (Flags s) (Ioprio s) v (Off s) (Addr s) (Len s) (OpFlags s)
     (UserData s) (BufIndex s) (Personality s) (SpliceFdIn s) (Addr3 s) (_pad2 s).
Definition set_Off (v : Z) (s : t) : t :=
  mk (Opcode s) (Flags s) (Ioprio s) (Fd s) v (Addr s) (Len s) (OpFlags s)
     (UserData s) (BufIndex s) (Personality s) (SpliceFdIn s) (Addr3 s) (_pad2 s).
Definition set_Addr (v : Z) (s : t) : t :=
  mk (Opcode s) (Flags s) (Ioprio s) (Fd s) (Off s) v (Len s) (OpFlags s)
     (UserData s) (BufIndex s) (Personality s) (SpliceFdIn s) (Addr3 s) (_pad2 s).
Definition set_Len (v : Z) (s : t) : t :=
  mk (Opcode s) (Flags s) (Ioprio s) (Fd s) (Off s) (Addr s) v (OpFlags s)
     (UserData s) (BufIndex s) (Personality s) (SpliceFdIn s) (Addr3 s) (_pad2 s).
Definition set_OpFlags (v : Z) (s : t) : t :=
  mk (Opcode s) (Flags s) (Ioprio s) (Fd s) (Off s) (Addr s) (Len s) v
     (UserData s) (BufIndex s) (Personality s) (SpliceFdIn s) (Addr3 s) (_pad2 s).
Definition set_UserData (v : Z) (s : t) : t :=
  mk (Opcode s) (Flags s) (Ioprio s) (Fd s) (Off s) (Addr s) (Len s) (OpFlags s)
     v (BufIndex s) (Personality s) (SpliceFdIn s) (Addr3 s) (_pad2 s).
Definition set_BufIndex (v : Z) (s : t) : t :=
  mk (Opcode s) (Flags s) (Ioprio s) (Fd s) (Off s) (Addr s) (Len s) (OpFlags s)
     (UserData s) v (Personality s) (SpliceFdIn s) (Addr3 s) (_pad2 s).
Definition set_SpliceFdIn (v : Z) (s : t) : t :=
  mk (Opcode s) (Flags s) (Ioprio s) (Fd s) (Off s) (Addr s) (Len s) (OpFlags s)
     (UserData s) (BufIndex s) (Personality s) v (Addr3 s) (_pad2 s).

(** [SetSpliceOffIn] and [SetBufGroup]: the union aliases. *)
Definition SetSpliceOffIn (off : Z) (s : t) : t := set_Addr off s.
Definition SetBufGroup (group : Z) (s : t) : t := set_BufIndex group s.

(** [Reset]: [*s = SQE{}]. *)
Definition Reset (s : t) : t := zero.
End SQE.

Module CQE.
Record t : Type := mk {
  UserData : Z;
  Res : Z;
  Flags : Z
}.
End CQE.

Record SQRingOffsets : Type := {
  sqoff_Head : Z;
  sqoff_Tail : Z;
  sqoff_RingMask : Z;
  sqoff_RingEntries : Z;
  sqoff_Flags : Z;
  sqoff_Dropped : Z;
  sqoff_Array : Z
}.

Record CQRingOffsets : Type := {
  cqoff_Head : Z;
  cqoff_Tail : Z;
  cqoff_RingMask : Z;
  cqoff_RingEntries : Z;
  cqoff_Overflow : Z;
  cqoff_CQEs : Z;
  cqoff_Flags : Z
}.

Module Params.
Record t : Type := mk {
  SQEntries : Z;
  CQEntries : Z;
  Flags : Z;
  SQThreadCPU : Z;
  SQThreadIdle : Z;
  Features : Z;
  WQFd : Z;
  SQOff : SQRingOffsets;
  CQOff : CQRingOffsets
}.

(** The zero value [sys.Params{}]. *)
Definition zero : t :=
  mk 0 0 0 0 0 0 0
     (Build_SQRingOffsets 0 0 0 0 0 0 0) (Build_CQRingOffsets 0 0 0 0 0 0 0).

Definition set_Flags (v : Z) (p : t) : t :=
  mk (SQEntries p) (CQEntries p) v (SQThreadCPU p) (SQThreadIdle p)
     (Features p) (WQFd p) (SQOff p) (CQOff p).
Definition set_SQThreadCPU (v : Z) (p : t) : t :=
  mk (SQEntries p) (CQEntries p) (Flags p) v (SQThreadIdle p)
     (Features p) (WQFd p) (SQOff p) (CQOff p).
Definition set_SQThreadIdle (v : Z) (p : t) : t :=
  mk (SQEntries p) (CQEntries p) (Flags p) (SQThreadCPU p) v
     (Features p) (WQFd p) (SQOff p) (CQOff p).
Definition set_CQEntries (v : Z) (p : t) : t :=
  mk (SQEntries p) v (Flags p) (SQThreadCPU p) (SQThreadIdle p)
     (Features p) (WQFd p) (SQOff p) (CQOff p).
End Params.

(** [unsafe.Sizeof(sys.SQE{})] and [unsafe.Sizeof(sys.CQE{})]. *)
Definition sizeof_SQE : Z := 64.
Definition sizeof_CQE : Z := 16.

(** A Go slice as the builders see it: the address of its first element
    and its elements. *)
Record Slice (A : Type) : Type := mkSlice {
  sl_addr : Z;
  sl_data : list A
}.
Arguments mkSlice {A} _ _.
Arguments sl_addr {A} _.
Arguments sl_data {A} _.

Definition len {A : Type} (s : Slice A) : Z := Z.of_nat (length (sl_data s)).

Record Iovec : Type := {
  iov_Base : Z;
  iov_Len : Z
}.

Record Timespec : Type := {
  ts_Sec : Z;
  ts_Nsec : Z
}.

(** ** The world: the [Ring] struct, the mapped regions, the kernel *)

(** The three regions the ring descriptor can map, named by their mmap
    offsets [IORING_OFF_SQ_RING], [IORING_OFF_CQ_RING], [IORING_OFF_SQES]. *)
Inductive Region : Type := RegSQ | RegCQ | RegSQEs.

Definition region_at (off : Z) : option Region :=
  if off =? IORING_OFF_SQ_RING then Some RegSQ
  else if off =? IORING_OFF_CQ_RING then Some RegCQ
  else if off =? IORING_OFF_SQES then Some RegSQEs
  else None.

Module Ring.
(** ring.go, [type Ring struct].  The three [[]byte] fields are [None]
    for a nil slice and otherwise name the region they map.  The pointer
    fields ([sqHead], [sqTail], [sqFlags], [sqDropped], [cqHead],
    [cqTail], [cqFlags], [cqOverflow]) and the slice views ([sqArray],
    [sqes], [cqes]) are not stored: they denote fixed words of the
    region held by [sqRing], [cqRing] and [sqesMmap] (see [Mem]). *)
Record t : Type := mk {
  fd : Z;
  params : Params.t;
  features : Z;
  sqRing : option Region;
  sqEntries : Z;
  sqMask : Z;
  sqesMmap : option Region;
  cqRing : option Region;
  cqEntries : Z;
  cqMask : Z;
  sqLock : bool;
  sqPending : Z;
  closed : bool
}.

(** [&Ring{fd: fd, params: params, features: params.Features}]. *)
Definition make (fd : Z) (p : Params.t) : t :=
  mk fd p (Params.Features p) None 0 0 None None 0 0 false 0 false.

Definition set_sqRing (v : option Region) (r : t) : t :=
  mk (fd r) (params r) (features r) v (sqEntries r) (sqMask r) (sqesMmap r)
     (cqRing r) (cqEntries r) (cqMask r) (sqLock r) (sqPending r) (closed r).
Definition set_cqRing (v : option Region) (r : t) : t :=
  mk (fd r) (params r) (features r) (sqRing r) (sqEntries r) (sqMask r) (sqesMmap r)
     v (cqEntries r) (cqMask r) (sqLock r) (sqPending r) (closed r).
Definition set_sqesMmap (v : option Region) (r : t) : t :=
  mk (fd r) (params r) (features r) (sqRing r) (sqEntries r) (sqMask r) v
     (cqRing r) (cqEntries r) (cqMask r) (sqLock r) (sqPending r) (closed r).
Definition set_sq_geometry (entries mask : Z) (r : t) : t :=
  mk (fd r) (params r) (features r) (sqRing r) entries mask (sqesMmap r)
     (cqRing r) (cqEntries r) (cqMask r) (sqLock r) (sqPending r) (closed r).
Definition set_cq_geometry (entries mask : Z) (r : t) : t :=
  mk (fd r) (params r) (features r) (sqRing r) (sqEntries r) (sqMask r) (sqesMmap r)
     (cqRing r) entries mask (sqLock r) (sqPending r) (closed r).
Definition set_sqLock (v : bool) (r : t) : t :=
  mk (fd r) (params r) (features r) (sqRing r) (sqEntries r) (sqMask r) (sqesMmap r)
     (cqRing r) (cqEntries r) (cqMask r) v (sqPending r) (closed r).
Definition set_sqPending (v : Z) (r : t) : t :=
  mk (fd r) (params r) (features r) (sqRing r) (sqEntries r) (sqMask r) (sqesMmap r)
     (cqRing r) (cqEntries r) (cqMask r) (sqLock r) v (closed r).
Definition set_closed (v : bool) (r : t) : t :=
  mk (fd r) (params r) (features r) (sqRing r) (sqEntries r) (sqMask r) (sqesMmap r)
     (cqRing r) (cqEntries r) (cqMask r) (sqLock r) (sqPending r) v.
End Ring.

(** The memory behind the ring descriptor: which regions the process has
    mapped, and the words of the rings.  [sq_tail] and [cq_head] are
    written by the library, the other ring words by the kernel; [sq_array]
    and [sqes] are filled by the library and read by the kernel. *)
Record Mem : Type := mkMem {
  map_sq : bool;
  map_cq : bool;
  map_sqes : bool;
  sq_head : Z;
  sq_tail : Z;
  sq_ring_mask : Z;
  sq_ring_entries : Z;
  sq_flags : Z;
  sq_dropped : Z;
  sq_array : list Z;
  sqes : list SQE.t;
  cq_head : Z;
  cq_tail : Z;
  cq_ring_mask : Z;
  cq_ring_entries : Z;
  cq_flags : Z;
  cq_overflow : Z;
  cqes : list CQE.t
}.

Definition mapped (g : Region) (m : Mem) : bool :=
  match g with
  | RegSQ => map_sq m
  | RegCQ => map_cq m
  | RegSQEs => map_sqes m
  end.

Definition set_mapped (g : Region) (b : bool) (m : Mem) : Mem :=
  mkMem (match g with RegSQ => b | _ => map_sq m end)
        (match g with RegCQ => b | _ => map_cq m end)
        (match g with RegSQEs => b | _ => map_sqes m end)
        (sq_head m) (sq_tail m) (sq_ring_mask m) (sq_ring_entries m) (sq_flags m)
        (sq_dropped m) (sq_array m) (sqes m)
        (cq_head m) (cq_tail m) (cq_ring_mask m) (cq_ring_entries m) (cq_flags m)
        (cq_overflow m) (cqes m).

Definition set_sq_tail (v : Z) (m : Mem) : Mem :=
  mkMem (map_sq m) (map_cq m) (map_sqes m)
        (sq_head m) v (sq_ring_mask m) (sq_ring_entries m) (sq_flags m)
        (sq_dropped m) (sq_array m) (sqes m)
        (cq_head m) (cq_tail m) (cq_ring_mask m) (cq_ring_entries m) (cq_flags m)
        (cq_overflow m) (cqes m).

Definition set_sq_array (v : list Z) (m : Mem) : Mem :=
  mkMem (map_sq m) (map_cq m) (map_sqes m)
        (sq_head m) (sq_tail m) (sq_ring_mask m) (sq_ring_entries m) (sq_flags m)
        (sq_dropped m) v (sqes m)
        (cq_head m) (cq_tail m) (cq_ring_mask m) (cq_ring_entries m) (cq_flags m)
        (cq_overflow m) (cqes m).

Definition set_sqes (v : list SQE.t) (m : Mem) : Mem :=
  mkMem (map_sq m) (map_cq m) (map_sqes m)
        (sq_head m) (sq_tail m) (sq_ring_mask m) (sq_ring_entries m) (sq_flags m)
        (sq_dropped m) (sq_array m) v
        (cq_head m) (cq_tail m) (cq_ring_mask m) (cq_ring_entries m) (cq_flags m)
        (cq_overflow m) (cqes m).

Definition set_cq_head (v : Z) (m : Mem) : Mem :=
  mkMem (map_sq m) (map_cq m) (map_sqes m)
        (sq_head m) (sq_tail m) (sq_ring_mask m) (sq_ring_entries m) (sq_flags m)
        (sq_dropped m) (sq_array m) (sqes m)
        v (cq_tail m) (cq_ring_mask m) (cq_ring_entries m) (cq_flags m)
        (cq_overflow m) (cqes m).

(** What the kernel may store into the rings while the process is inside
    [io_uring_enter]: the submission head, flags and dropped counter, and
    the completion tail, flags, overflow counter and entries.  The
    submission tail and the completion head have the library as their only
    writer. *)
Record KWrites : Type := {
  kw_sq_head : Z;
  kw_sq_flags : Z;
  kw_sq_dropped : Z;
  kw_cq_tail : Z;
  kw_cq_flags : Z;
  kw_cq_overflow : Z;
  kw_cqes : list CQE.t
}.

Definition kernel_writes (k : KWrites) (m : Mem) : Mem :=
  mkMem (map_sq m) (map_cq m) (map_sqes m)
        (kw_sq_head k) (sq_tail m) (sq_ring_mask m) (sq_ring_entries m) (kw_sq_flags k)
        (kw_sq_dropped k) (sq_array m) (sqes m)
        (cq_head m) (kw_cq_tail k) (cq_ring_mask m) (cq_ring_entries m) (kw_cq_flags k)
        (kw_cq_overflow k) (kw_cqes k).

(** The system calls and the resource releases the library performs, in
    the order it performs them. *)
Inductive Event : Type :=
| EvSetup (entries : Z) (p : Params.t)
| EvMmap (fd off length : Z)
| EvMunmap (g : Region)
| EvCloseFd (fd : Z)
| EvEnter (fd toSubmit minComplete flags : Z) (arg : option Timespec)
| EvRegister (fd opcode nrArgs : Z).

Record World : Type := mkWorld {
  ring : Ring.t;
  mem : Mem;
  trace : list Event;
  now : Z
}.

Definition set_ring (r : Ring.t) (w : World) : World :=
  mkWorld r (mem w) (trace w) (now w).
Definition set_mem (m : Mem) (w : World) : World :=
  mkWorld (ring w) m (trace w) (now w).
Definition log (e : Event) (w : World) : World :=
  mkWorld (ring w) (mem w) (trace w ++ [e]) (now w).
Definition elapse (d : Z) (w : World) : World :=
  mkWorld (ring w) (mem w) (trace w) (now w + Z.max 0 d).

(** Results of system calls and the kernel oracle. *)
Inductive SysRet : Type :=
| SysOk (n : Z)
| SysErr (errno : Z).

Record EnterReply : Type := {
  er_ret : SysRet;
  er_writes : KWrites;
  er_elapsed : Z
}.

Inductive SetupReply : Type :=
| SetupOk (fd : Z) (p : Params.t) (image : Mem)
| SetupErr (errno : Z).

Record Kernel : Type := {
  sys_setup : World -> Z -> Params.t -> SetupReply;
  sys_mmap : World -> Z -> Z -> Z -> option Z;
  sys_enter : World -> Z -> Z -> Z -> Z -> option Timespec -> EnterReply;
  sys_register : World -> Z -> Z -> Z -> option Z;
  sys_close : World -> Z -> option Z
}.

(** ** Errors (ring.go, [var (...)]) and outcomes *)

Inductive Error : Type :=
| ErrRingClosed
| ErrSQFull
| ErrCQOverflow
| ErrNotSupported
| Errno (e : Z)
| CtxErr (cause : Z).

(** Ways a call does not return: a load or store through a pointer into a
    region that is not mapped, an index out of the range of a slice, a
    [Lock] of the mutex that is already held, and the end of the fuel of a
    loop of the model. *)
Inductive Stop : Type := Segv | IndexPanic | Deadlock | OutOfFuel.

Inductive Outcome (A : Type) : Type :=
| Ret (a : A) (w : World)
| Abort (s : Stop).
Arguments Ret {A} _ _.
Arguments Abort {A} _.

Definition M (A : Type) : Type := World -> Outcome A.

Definition ret {A : Type} (a : A) : M A := fun w => Ret a w.

Definition bind {A B : Type} (m : M A) (f : A -> M B) : M B :=
  fun w => match m w with
           | Ret a w' => f a w'
           | Abort s => Abort s
           end.

Declare Scope go_scope.
Delimit Scope go_scope with go.
Notation "'let*' x := m 'in' k" := (bind m (fun x => k))
  (at level 10, x name, m at level 100, k at level 200) : go_scope.
Notation "'let*' ' p := m 'in' k" := (bind m (fun x => match x with p => k end))
  (at level 10, p pattern, m at level 100, k at level 200) : go_scope.
Notation "m ;; k" := (bind m (fun _ => k))
  (at level 100, k at level 200, right associativity) : go_scope.
Local Open Scope go_scope.

Definition get : M World := fun w => Ret w w.
Definition abort {A : Type} (s : Stop) : M A := fun _ => Abort s.
Definition update (f : World -> World) : M unit := fun w => Ret tt (f w).
Definition modify_ring (f : Ring.t -> Ring.t) : M unit :=
  update (fun w => set_ring (f (ring w)) w).
Definition modify_mem (f : Mem -> Mem) : M unit :=
  update (fun w => set_mem (f (mem w)) w).

(** Every load and store through a pointer or a slice view checks that its
    region is mapped: a nil slice or an unmapped region stops the call. *)
Definition access (g : option Region) : M unit :=
  fun w => match g with
           | Some reg => if mapped reg (mem w) then Ret tt w else Abort Segv
           | None => Abort Segv
           end.

Definition in_sq : M unit := let* w := get in access (Ring.sqRing (ring w)).
Definition in_cq : M unit := let* w := get in access (Ring.cqRing (ring w)).
Definition in_sqes : M unit := let* w := get in access (Ring.sqesMmap (ring w)).

(** [atomic.LoadUint32] and [atomic.StoreUint32] on the ring words. *)
Definition load_sqHead : M Z := in_sq ;; let* w := get in ret (sq_head (mem w)).
Definition load_sqTail : M Z := in_sq ;; let* w := get in ret (sq_tail (mem w)).
Definition load_sqFlags : M Z := in_sq ;; let* w := get in ret (sq_flags (mem w)).
Definition store_sqTail (v : Z) : M unit := in_sq ;; modify_mem (set_sq_tail v).
Definition load_cqHead : M Z := in_cq ;; let* w := get in ret (cq_head (mem w)).
Definition load_cqTail : M Z := in_cq ;; let* w := get in ret (cq_tail (mem w)).
Definition load_cqOverflow : M Z := in_cq ;; let* w := get in ret (cq_overflow (mem w)).
Definition store_cqHead (v : Z) : M unit := in_cq ;; modify_mem (set_cq_head v).

(** [sync.Mutex] in a sequential run. *)
Definition sqLock_Lock : M unit :=
  let* w := get in
  if Ring.sqLock (ring w) then abort Deadlock
  else modify_ring (Ring.set_sqLock true).
Definition sqLock_Unlock : M unit := modify_ring (Ring.set_sqLock false).

(** Fields of the [Ring] struct. *)
Definition field {A : Type} (f : Ring.t -> A) : M A :=
  let* w := get in ret (f (ring w)).

(** ** internal/sys/syscall.go *)

Section Library.

Variable K : Kernel.

Definition of_errno (r : option Z) : option Error :=
  match r with
  | Some e => Some (Errno e)
  | None => None
  end.

(** [Setup]: on success the kernel has filled [params] and created the
    rings; none of them is mapped yet. *)
Definition Setup (entries : Z) (params : Params.t) : M (Z * Params.t * option Error) :=
  let* w := get in
  update (log (EvSetup entries params)) ;;
  match sys_setup K w entries params with
  | SetupOk fd p image =>
      modify_mem (fun _ => set_mapped RegSQ false
                            (set_mapped RegCQ false (set_mapped RegSQEs false image))) ;;
      ret (fd, p, None)
  | SetupErr e => ret (0, params, Some (Errno e))
  end.

Definition Enter (fd toSubmit minComplete flags : Z) : M (Z * option Error) :=
  let* w := get in
  update (log (EvEnter fd toSubmit minComplete flags None)) ;;
  let r := sys_enter K w fd toSubmit minComplete flags None in
  modify_mem (kernel_writes (er_writes r)) ;;
  update (elapse (er_elapsed r)) ;;
  match er_ret r with
  | SysOk n => ret (n, None)
  | SysErr e => ret (0, Some (Errno e))
  end.

Definition EnterExt (fd toSubmit minComplete flags : Z) (arg : Timespec)
  : M (Z * option Error) :=
  let* w := get in
  let flags' := Z.lor flags IORING_ENTER_EXT_ARG in
  update (log (EvEnter fd toSubmit minComplete flags' (Some arg))) ;;
  let r := sys_enter K w fd toSubmit minComplete flags' (Some arg) in
  modify_mem (kernel_writes (er_writes r)) ;;
  update (elapse (er_elapsed r)) ;;
  match er_ret r with
  | SysOk n => ret (n, None)
  | SysErr e => ret (0, Some (Errno e))
  end.

Definition Register (fd opcode nrArgs : Z) : M (option Error) :=
  let* w := get in
  update (log (EvRegister fd opcode nrArgs)) ;;
  ret (of_errno (sys_register K w fd opcode nrArgs)).

Definition sys_RegisterBuffers (fd : Z) (iovecs : list Iovec) : M (option Error) :=
  if Z.of_nat (length iovecs) =? 0 then ret (Some (Errno EINVAL))
  else Register fd IORING_REGISTER_BUFFERS (u32 (Z.of_nat (length iovecs))).

Definition sys_UnregisterBuffers (fd : Z) : M (option Error) :=
  Register fd IORING_UNREGISTER_BUFFERS 0.

Definition sys_RegisterFiles (fd : Z) (fds : list Z) : M (option Error) :=
  if Z.of_nat (length fds) =? 0 then ret (Some (Errno EINVAL))
  else Register fd IORING_REGISTER_FILES (u32 (Z.of_nat (length fds))).

Definition sys_UnregisterFiles (fd : Z) : M (option Error) :=
  Register fd IORING_UNREGISTER_FILES 0.

Definition sys_RegisterEventfd (fd eventfd : Z) : M (option Error) :=
  Register fd IORING_REGISTER_EVENTFD 1.

Definition sys_UnregisterEventfd (fd : Z) : M (option Error) :=
  Register fd IORING_UNREGISTER_EVENTFD 0.

Definition sys_RegisterProbe (fd : Z) : M (option Error) :=
  Register fd IORING_REGISTER_PROBE (u32 IORING_OP_LAST).

(** [Mmap]: [syscall.Mmap] refuses a length that is not positive with
    [EINVAL] before it asks the kernel; the slice returned names the
    region at [offset]. *)
Definition Mmap (fd offset length : Z) : M (option Region * option Error) :=
  if length <=? 0 then ret (None, Some (Errno EINVAL))
  else
    let* w := get in
    update (log (EvMmap fd offset length)) ;;
    match sys_mmap K w fd offset length with
    | Some e => ret (None, Some (Errno e))
    | None =>
        match region_at offset with
        | Some g => modify_mem (set_mapped g true) ;; ret (Some g, None)
        | None => ret (None, Some (Errno EINVAL))
        end
    end.

(** [Munmap]: [syscall.Munmap] refuses a slice that is not an active
    mapping with [EINVAL]. *)
Definition Munmap (data : option Region) : M (option Error) :=
  let* w := get in
  match data with
  | Some g =>
      if mapped g (mem w) then
        update (log (EvMunmap g)) ;; modify_mem (set_mapped g false) ;; ret None
      else ret (Some (Errno EINVAL))
  | None => ret (Some (Errno EINVAL))
  end.

Definition syscall_Close (fd : Z) : M (option Error) :=
  let* w := get in
  update (log (EvCloseFd fd)) ;;
  ret (of_errno (sys_close K w fd)).

(** ** ring.go *)

(** [type Option]: a function that edits the setup parameters in place. *)
Definition Option : Type := Params.t -> Params.t.

Definition or_Flags (bits : Z) (p : Params.t) : Params.t :=
  Params.set_Flags (Z.lor (Params.Flags p) bits) p.

Definition WithSQPoll : Option := or_Flags IORING_SETUP_SQPOLL.

Definition WithSQPollCPU (cpu : Z) : Option :=
  fun p => Params.set_SQThreadCPU cpu (or_Flags IORING_SETUP_SQ_AFF p).

Definition WithSQPollIdle (ms : Z) : Option := Params.set_SQThreadIdle ms.

Definition WithIOPoll : Option := or_Flags IORING_SETUP_IOPOLL.

Definition WithCQSize (size : Z) : Option :=
  fun p => Params.set_CQEntries size (or_Flags IORING_SETUP_CQSIZE p).

Definition WithSingleIssuer : Option := or_Flags IORING_SETUP_SINGLE_ISSUER.

Definition WithDeferTaskrun : Option :=
  or_Flags (Z.lor IORING_SETUP_DEFER_TASKRUN IORING_SETUP_SINGLE_ISSUER).

Definition WithCoopTaskrun : Option := or_Flags IORING_SETUP_COOP_TASKRUN.

Definition WithFlags (flags : Z) : Option := or_Flags flags.

Definition singleMmap (p : Params.t) : bool :=
  negb (Z.land (Params.Features p) IORING_FEAT_SINGLE_MMAP =? 0).

(** [mapRings].  The words at the offsets [p.SQOff.*] and [p.CQOff.*]
    of the mapped regions are the ring words of [Mem]. *)
Definition mapRings : M (option Error) :=
  let* p := field Ring.params in
  let* fd := field Ring.fd in
  let sqRingSize := u32 (sqoff_Array (Params.SQOff p) + u32 (Params.SQEntries p * 4)) in
  let cqRingSize :=
    u32 (cqoff_CQEs (Params.CQOff p) + u32 (Params.CQEntries p * u32 sizeof_CQE)) in
  let sqRingSize :=
    if singleMmap p then (if cqRingSize >? sqRingSize then cqRingSize else sqRingSize)
    else sqRingSize in
  let* '(m, err) := Mmap fd IORING_OFF_SQ_RING sqRingSize in
  modify_ring (Ring.set_sqRing m) ;;
  match err with
  | Some e => ret (Some e)
  | None =>
      let* cq :=
        (if singleMmap p then
           let* sq := field Ring.sqRing in
           modify_ring (Ring.set_cqRing sq) ;; ret None
         else
           let* '(m, err) := Mmap fd IORING_OFF_CQ_RING cqRingSize in
           modify_ring (Ring.set_cqRing m) ;;
           match err with
           | Some e =>
               let* sq := field Ring.sqRing in
               Munmap sq ;; ret (Some e)
           | None => ret None
           end) in
      match cq with
      | Some e => ret (Some e)
      | None =>
          let sqeSize := u32 (Params.SQEntries p * u32 sizeof_SQE) in
          let* '(m, err) := Mmap fd IORING_OFF_SQES sqeSize in
          modify_ring (Ring.set_sqesMmap m) ;;
          match err with
          | Some e =>
              (if negb (singleMmap p) then
                 let* cq := field Ring.cqRing in
                 Munmap cq ;; ret tt
               else ret tt) ;;
              let* sq := field Ring.sqRing in
              Munmap sq ;; ret (Some e)
          | None =>
              in_sq ;;
              let* w := get in
              modify_ring (Ring.set_sq_geometry (sq_ring_entries (mem w))
                                                (sq_ring_mask (mem w))) ;;
              in_sqes ;;
              in_cq ;;
              let* w := get in
              modify_ring (Ring.set_cq_geometry (cq_ring_entries (mem w))
                                                (cq_ring_mask (mem w))) ;;
              ret None
          end
      end
  end.

(** [New].  The struct under construction lives in the [ring] slot of
    the world; a non-nil error means no ring is returned. *)
Definition New (entries : Z) (opts : list Option) : M (option Error) :=
  if entries =? 0 then ret (Some (Errno EINVAL))
  else
    let params := fold_left (fun p opt => opt p) opts Params.zero in
    let* '(fd, params, err) := Setup entries params in
    match err with
    | Some e => ret (Some e)
    | None =>
        modify_ring (fun _ => Ring.make fd params) ;;
        let* err := mapRings in
        match err with
        | Some e => syscall_Close fd ;; ret (Some e)
        | None => ret None
        end
    end.

(** [s != nil] for a mapped slice. *)
Definition notnil (s : option Region) : bool :=
  match s with
  | Some _ => true
  | None => false
  end.

(** [closed.Swap(true)] and [closed.Load()]. *)
Definition closed_Swap (v : bool) : M bool :=
  let* old := field Ring.closed in
  modify_ring (Ring.set_closed v) ;; ret old.
Definition closed_Load : M bool := field Ring.closed.

Definition Close : M (option Error) :=
  let* was := closed_Swap true in
  if was then ret None
  else
    let* r := field id in
    (if (Z.land (Params.Features (Ring.params r)) IORING_FEAT_SINGLE_MMAP =? 0)
        && notnil (Ring.cqRing r)
     then Munmap (Ring.cqRing r) ;; ret tt else ret tt) ;;
    (if notnil (Ring.sqRing r)
     then Munmap (Ring.sqRing r) ;; ret tt else ret tt) ;;
    (if notnil (Ring.sqesMmap r)
     then Munmap (Ring.sqesMmap r) ;; ret tt else ret tt) ;;
    syscall_Close (Ring.fd r).

Definition Fd : M Z := field Ring.fd.
Definition Features : M Z := field Ring.features.
Definition HasFeature (feat : Z) : M bool :=
  let* f := field Ring.features in ret (negb (Z.land f feat =? 0)).
Definition SQEntries : M Z := field Ring.sqEntries.
Definition CQEntries : M Z := field Ring.cqEntries.
Definition SQReady : M Z := field Ring.sqPending.

Definition SQSpace : M Z :=
  let* head := load_sqHead in
  let* tail := load_sqTail in
  let* entries := field Ring.sqEntries in
  ret (u32 (entries - u32 (tail - head))).

Definition CQReady : M Z :=
  let* head := load_cqHead in
  let* tail := load_cqTail in
  ret (u32 (tail - head)).

Definition needsWakeup : M bool :=
  let* p := field Ring.params in
  if Z.land (Params.Flags p) IORING_SETUP_SQPOLL =? 0 then ret false
  else
    let* f := load_sqFlags in
    ret (negb (Z.land f IORING_SQ_NEED_WAKEUP =? 0)).

Definition Submit : M (Z * option Error) :=
  let* c := closed_Load in
  if c then ret (0, Some ErrRingClosed)
  else
    sqLock_Lock ;;
    let* submitted := field Ring.sqPending in
    if submitted =? 0 then sqLock_Unlock ;; ret (0, None)
    else
      let* tail := load_sqTail in
      store_sqTail (u32 (tail + submitted)) ;;
      modify_ring (Ring.set_sqPending 0) ;;
      sqLock_Unlock ;;
      let* wake := needsWakeup in
      let flags := if wake then Z.lor 0 IORING_ENTER_SQ_WAKEUP else 0 in
      let* p := field Ring.params in
      if negb (Z.land (Params.Flags p) IORING_SETUP_SQPOLL =? 0) && (flags =? 0)
      then ret (submitted, None)
      else
        let* fd := field Ring.fd in
        let* '(n, err) := Enter fd submitted 0 flags in
        match err with
        | Some e => ret (0, Some e)
        | None => ret (n, None)
        end.

Definition SubmitAndWait (n : Z) : M (Z * option Error) :=
  let* c := closed_Load in
  if c then ret (0, Some ErrRingClosed)
  else
    sqLock_Lock ;;
    let* submitted := field Ring.sqPending in
    (if submitted >? 0 then
       let* tail := load_sqTail in
       store_sqTail (u32 (tail + submitted)) ;;
       modify_ring (Ring.set_sqPending 0)
     else ret tt) ;;
    sqLock_Unlock ;;
    let* wake := needsWakeup in
    let flags :=
      if wake then Z.lor IORING_ENTER_GETEVENTS IORING_ENTER_SQ_WAKEUP
      else IORING_ENTER_GETEVENTS in
    let* fd := field Ring.fd in
    let* '(result, err) := Enter fd submitted n flags in
    match err with
    | Some e => ret (0, Some e)
    | None => ret (result, None)
    end.

Definition RegisterEventfd (eventfd : Z) : M (option Error) :=
  let* fd := field Ring.fd in sys_RegisterEventfd fd eventfd.

Definition UnregisterEventfd : M (option Error) :=
  let* fd := field Ring.fd in sys_UnregisterEventfd fd.

Definition iovec_of (buf : Slice Z) : Iovec :=
  if len buf >? 0 then Build_Iovec (sl_addr buf) (u64 (len buf))
  else Build_Iovec 0 0.

Definition RegisterBuffers (bufs : list (Slice Z)) : M (option Error) :=
  if Z.of_nat (length bufs) =? 0 then ret (Some (Errno EINVAL))
  else
    let iovecs := map iovec_of bufs in
    let* fd := field Ring.fd in sys_RegisterBuffers fd iovecs.

Definition UnregisterBuffers : M (option Error) :=
  let* fd := field Ring.fd in sys_UnregisterBuffers fd.

Definition RegisterFiles (fds : list Z) : M (option Error) :=
  if Z.of_nat (length fds) =? 0 then ret (Some (Errno EINVAL))
  else
    let fds32 := map i32 fds in
    let* fd := field Ring.fd in sys_RegisterFiles fd fds32.

Definition UnregisterFiles : M (option Error) :=
  let* fd := field Ring.fd in sys_UnregisterFiles fd.

(** probe.go, [Probe]: the table of operations is the kernel's answer;
    the library keeps the ring's feature word beside it. *)
Definition Probe : M (option Z * option Error) :=
  let* features := field Ring.features in
  let* fd := field Ring.fd in
  let* err := sys_RegisterProbe fd in
  match err with
  | Some e => ret (None, Some e)
  | None => ret (Some features, None)
  end.

(** ** sqe.go *)

(** [&r.sqes[idx]]: the slice [r.sqes] has [p.SQEntries] elements. *)
Definition sqes_index (idx : Z) : M unit :=
  let* p := field Ring.params in
  if idx <? Params.SQEntries p then ret tt else abort IndexPanic.

(** A store through a [*SQE] that points at slot [idx]. *)
Definition sqe_update (idx : Z) (f : SQE.t -> SQE.t) : M unit :=
  in_sqes ;;
  let* w := get in
  match sqes (mem w) !! Z.to_nat idx with
  | Some s => modify_mem (set_sqes (<[Z.to_nat idx := f s]> (sqes (mem w))))
  | None => abort Segv
  end.

(** [r.sqArray[idx] = v]: the slice [r.sqArray] has [r.sqEntries]
    elements. *)
Definition sqArray_store (idx v : Z) : M unit :=
  let* n := field Ring.sqEntries in
  if idx <? n then
    in_sq ;;
    let* w := get in
    match sq_array (mem w) !! Z.to_nat idx with
    | Some _ => modify_mem (set_sq_array (<[Z.to_nat idx := v]> (sq_array (mem w))))
    | None => abort Segv
    end
  else abort IndexPanic.

(** [getSQE]: [None] is the nil pointer, [Some idx] points at slot
    [idx] of the entry array. *)
Definition getSQE : M (option Z) :=
  let* head := load_sqHead in
  let* t := load_sqTail in
  let* pending := field Ring.sqPending in
  let tail := u32 (t + pending) in
  let* entries := field Ring.sqEntries in
  if u32 (tail - head) >=? entries then ret None
  else
    let* mask := field Ring.sqMask in
    let idx := Z.land tail mask in
    sqes_index idx ;;
    sqe_update idx SQE.Reset ;;
    sqArray_store idx (u32 idx) ;;
    modify_ring (Ring.set_sqPending (u32 (pending + 1))) ;;
    ret (Some idx).

Definition GetSQE : M (option Z) :=
  sqLock_Lock ;;
  let* sqe := getSQE in
  sqLock_Unlock ;;
  ret sqe.

(** The field assignments of a builder, in program order. *)
Definition assign (fs : list (SQE.t -> SQE.t)) (s : SQE.t) : SQE.t :=
  fold_left (fun s f => f s) fs s.

(** The body every builder shares: lock, reserve, on nil unlock and
    return [ErrSQFull], otherwise assign the fields, unlock, return nil. *)
Definition prep (fs : list (SQE.t -> SQE.t)) : M (option Error) :=
  sqLock_Lock ;;
  let* sqe := getSQE in
  match sqe with
  | None => sqLock_Unlock ;; ret (Some ErrSQFull)
  | Some p => sqe_update p (assign fs) ;; sqLock_Unlock ;; ret None
  end.

Definition PrepNop (userData : Z) : M (option Error) :=
  prep [SQE.set_Opcode (u8 IORING_OP_NOP); SQE.set_UserData userData].

Definition PrepRead (fd : Z) (buf : Slice Z) (offset userData : Z) : M (option Error) :=
  if len buf =? 0 then ret None
  else prep [SQE.set_Opcode (u8 IORING_OP_READ); SQE.set_Fd (i32 fd);
             SQE.set_Addr (u64 (sl_addr buf)); SQE.set_Len (u32 (len buf));
             SQE.set_Off offset; SQE.set_UserData userData].

Definition PrepWrite (fd : Z) (buf : Slice Z) (offset userData : Z) : M (option Error) :=
  if len buf =? 0 then ret None
  else prep [SQE.set_Opcode (u8 IORING_OP_WRITE); SQE.set_Fd (i32 fd);
             SQE.set_Addr (u64 (sl_addr buf)); SQE.set_Len (u32 (len buf));
             SQE.set_Off offset; SQE.set_UserData userData].

Definition PrepReadFixed (fd : Z) (buf : Slice Z) (offset bufIndex userData : Z)
  : M (option Error) :=
  if len buf =? 0 then ret None
  else prep [SQE.set_Opcode (u8 IORING_OP_READ_FIXED); SQE.set_Fd (i32 fd);
             SQE.set_Addr (u64 (sl_addr buf)); SQE.set_Len (u32 (len buf));
             SQE.set_Off offset; SQE.set_BufIndex bufIndex; SQE.set_UserData userData].

Definition PrepWriteFixed (fd : Z) (buf : Slice Z) (offset bufIndex userData : Z)
  : M (option Error) :=
  if len buf =? 0 then ret None
  else prep [SQE.set_Opcode (u8 IORING_OP_WRITE_FIXED); SQE.set_Fd (i32 fd);
             SQE.set_Addr (u64 (sl_addr buf)); SQE.set_Len (u32 (len buf));
             SQE.set_Off offset; SQE.set_BufIndex bufIndex; SQE.set_UserData userData].

Definition PrepReadv (fd : Z) (iovecs : Slice Iovec) (offset userData : Z)
  : M (option Error) :=
  if len iovecs =? 0 then ret None
  else prep [SQE.set_Opcode (u8 IORING_OP_READV); SQE.set_Fd (i32 fd);
             SQE.set_Addr (u64 (sl_addr iovecs)); SQE.set_Len (u32 (len iovecs));
             SQE.set_Off offset; SQE.set_UserData userData].

Definition PrepWritev (fd : Z) (iovecs : Slice Iovec) (offset userData : Z)
  : M (option Error) :=
  if len iovecs =? 0 then ret None
  else prep [SQE.set_Opcode (u8 IORING_OP_WRITEV); SQE.set_Fd (i32 fd);
             SQE.set_Addr (u64 (sl_addr iovecs)); SQE.set_Len (u32 (len iovecs));
             SQE.set_Off offset; SQE.set_UserData userData].

Definition PrepFsync (fd flags userData : Z) : M (option Error) :=
  prep [SQE.set_Opcode (u8 IORING_OP_FSYNC); SQE.set_Fd (i32 fd);
        SQE.set_OpFlags flags; SQE.set_UserData userData].

(** Pointer arguments ([ts], [addr], [addrLen], [msg], [path],
    [statxbuf]) are the addresses they hold. *)
Definition PrepTimeout (ts count flags userData : Z) : M (option Error) :=
  prep [SQE.set_Opcode (u8 IORING_OP_TIMEOUT); SQE.set_Fd (-1);
        SQE.set_Addr (u64 ts); SQE.set_Len 1; SQE.set_Off count;
        SQE.set_OpFlags flags; SQE.set_UserData userData].

Definition PrepTimeoutRemove (targetUserData userData : Z) : M (option Error) :=
  prep [SQE.set_Opcode (u8 IORING_OP_TIMEOUT_REMOVE); SQE.set_Fd (-1);
        SQE.set_Addr targetUserData; SQE.set_UserData userData].

Definition PrepLinkTimeout (ts flags userData : Z) : M (option Error) :=
  prep [SQE.set_Opcode (u8 IORING_OP_LINK_TIMEOUT); SQE.set_Fd (-1);
        SQE.set_Addr (u64 ts); SQE.set_Len 1;
        SQE.set_OpFlags flags; SQE.set_UserData userData].

Definition PrepCancel (targetUserData flags userData : Z) : M (option Error) :=
  prep [SQE.set_Opcode (u8 IORING_OP_ASYNC_CANCEL); SQE.set_Fd (-1);
        SQE.set_Addr targetUserData; SQE.set_OpFlags flags;
        SQE.set_UserData userData].

Definition PrepAccept (fd addr addrLen flags userData : Z) : M (option Error) :=
  prep [SQE.set_Opcode (u8 IORING_OP_ACCEPT); SQE.set_Fd (i32 fd);
        SQE.set_Addr (u64 addr); SQE.set_Off (u64 addrLen);
        SQE.set_OpFlags flags; SQE.set_UserData userData].

Definition PrepAcceptMultishot (fd addr addrLen flags userData : Z) : M (option Error) :=
  prep [SQE.set_Opcode (u8 IORING_OP_ACCEPT); SQE.set_Fd (i32 fd);
        SQE.set_Addr (u64 addr); SQE.set_Off (u64 addrLen);
        SQE.set_OpFlags flags; SQE.set_Ioprio (u16 IORING_ACCEPT_MULTISHOT);
        SQE.set_UserData userData].

Definition PrepConnect (fd addr addrLen userData : Z) : M (option Error) :=
  prep [SQE.set_Opcode (u8 IORING_OP_CONNECT); SQE.set_Fd (i32 fd);
        SQE.set_Addr (u64 addr); SQE.set_Off (u64 addrLen);
        SQE.set_UserData userData].

Definition PrepSend (fd : Z) (buf : Slice Z) (flags userData : Z) : M (option Error) :=
  if len buf =? 0 then ret None
  else prep [SQE.set_Opcode (u8 IORING_OP_SEND); SQE.set_Fd (i32 fd);
             SQE.set_Addr (u64 (sl_addr buf)); SQE.set_Len (u32 (len buf));
             SQE.set_OpFlags (u32 flags); SQE.set_UserData userData].

Definition PrepRecv (fd : Z) (buf : Slice Z) (flags userData : Z) : M (option Error) :=
  if len buf =? 0 then ret None
  else prep [SQE.set_Opcode (u8 IORING_OP_RECV); SQE.set_Fd (i32 fd);
             SQE.set_Addr (u64 (sl_addr buf)); SQE.set_Len (u32 (len buf));
             SQE.set_OpFlags (u32 flags); SQE.set_UserData userData].

Definition PrepRecvMultishot (fd bufGroup flags userData : Z) : M (option Error) :=
  prep [SQE.set_Opcode (u8 IORING_OP_RECV); SQE.set_Fd (i32 fd);
        SQE.set_Flags IOSQE_BUFFER_SELECT; SQE.set_Ioprio IORING_RECV_MULTISHOT;
        SQE.SetBufGroup bufGroup; SQE.set_OpFlags (u32 flags);
        SQE.set_UserData userData].

Definition PrepClose (fd userData : Z) : M (option Error) :=
  prep [SQE.set_Opcode (u8 IORING_OP_CLOSE); SQE.set_Fd (i32 fd);
        SQE.set_UserData userData].

Definition PrepShutdown (fd how userData : Z) : M (option Error) :=
  prep [SQE.set_Opcode (u8 IORING_OP_SHUTDOWN); SQE.set_Fd (i32 fd);
        SQE.set_Len (u32 how); SQE.set_UserData userData].

Definition PrepSendmsg (fd msg flags userData : Z) : M (option Error) :=
  prep [SQE.set_Opcode (u8 IORING_OP_SENDMSG); SQE.set_Fd (i32 fd);
        SQE.set_Addr (u64 msg); SQE.set_Len 1;
        SQE.set_OpFlags (u32 flags); SQE.set_UserData userData].

Definition PrepRecvmsg (fd msg flags userData : Z) : M (option Error) :=
  prep [SQE.set_Opcode (u8 IORING_OP_RECVMSG); SQE.set_Fd (i32 fd);
        SQE.set_Addr (u64 msg); SQE.set_Len 1;
        SQE.set_OpFlags (u32 flags); SQE.set_UserData userData].

Definition PrepSocket (domain typ protocol userData : Z) : M (option Error) :=
  prep [SQE.set_Opcode (u8 IORING_OP_SOCKET); SQE.set_Fd (i32 domain);
        SQE.set_Off (u64 typ); SQE.set_Len (u32 protocol);
        SQE.set_UserData userData].

Definition PrepPollAdd (fd pollMask userData : Z) : M (option Error) :=
  prep [SQE.set_Opcode (u8 IORING_OP_POLL_ADD); SQE.set_Fd (i32 fd);
        SQE.set_OpFlags pollMask; SQE.set_UserData userData].

Definition PrepPollAddMultishot (fd pollMask userData : Z) : M (option Error) :=
  prep [SQE.set_Opcode (u8 IORING_OP_POLL_ADD); SQE.set_Fd (i32 fd);
        SQE.set_OpFlags pollMask; SQE.set_Len (u32 IORING_POLL_ADD_MULTI);
        SQE.set_UserData userData].

Definition PrepPollRemove (targetUserData userData : Z) : M (option Error) :=
  prep [SQE.set_Opcode (u8 IORING_OP_POLL_REMOVE); SQE.set_Fd (-1);
        SQE.set_Addr targetUserData; SQE.set_UserData userData].

Definition PrepOpenat (dirfd path flags mode userData : Z) : M (option Error) :=
  prep [SQE.set_Opcode (u8 IORING_OP_OPENAT); SQE.set_Fd (i32 dirfd);
        SQE.set_Addr (u64 path); SQE.set_Len (u32 mode);
        SQE.set_OpFlags (u32 flags); SQE.set_UserData userData].

Definition PrepStatx (dirfd path flags mask statxbuf userData : Z) : M (option Error) :=
  prep [SQE.set_Opcode (u8 IORING_OP_STATX); SQE.set_Fd (i32 dirfd);
        SQE.set_Addr (u64 path); SQE.set_Len (u32 mask);
        SQE.set_OpFlags (u32 flags); SQE.set_Off (u64 statxbuf);
        SQE.set_UserData userData].

Definition PrepSplice (fdIn offIn fdOut offOut nbytes flags userData : Z)
  : M (option Error) :=
  prep [SQE.set_Opcode (u8 IORING_OP_SPLICE); SQE.set_Fd (i32 fdOut);
        SQE.set_SpliceFdIn (i32 fdIn); SQE.set_Len nbytes;
        SQE.set_Off (u64 offOut); SQE.SetSpliceOffIn (u64 offIn);
        SQE.set_OpFlags flags; SQE.set_UserData userData].

Definition SetSQEFlags (flags : Z) : M unit :=
  sqLock_Lock ;;
  let* pending := field Ring.sqPending in
  (if pending >? 0 then
     let* t := load_sqTail in
     let tail := u32 (t + pending - 1) in
     let* mask := field Ring.sqMask in
     let idx := Z.land tail mask in
     sqes_index idx ;;
     sqe_update idx (fun s => SQE.set_Flags (Z.lor (SQE.Flags s) flags) s)
   else ret tt) ;;
  sqLock_Unlock.

Definition SetSQELink : M unit := SetSQEFlags IOSQE_IO_LINK.
Definition SetSQEAsync : M unit := SetSQEFlags IOSQE_ASYNC.

(** ** cqe.go *)

(** [&r.cqes[idx]]: the slice [r.cqes] has [r.cqEntries] elements. *)
Definition cqes_load (idx : Z) : M CQE.t :=
  let* n := field Ring.cqEntries in
  if idx <? n then
    in_cq ;;
    let* w := get in
    match cqes (mem w) !! Z.to_nat idx with
    | Some c => ret c
    | None => abort Segv
    end
  else abort IndexPanic.

Definition PeekCQE : M (Z * Z * Z * bool) :=
  let* head := load_cqHead in
  let* tail := load_cqTail in
  if head =? tail then ret (0, 0, 0, false)
  else
    let* mask := field Ring.cqMask in
    let idx := Z.land head mask in
    let* cqe := cqes_load idx in
    ret (CQE.UserData cqe, CQE.Res cqe, CQE.Flags cqe, true).

Definition SeenCQE : M unit :=
  let* head := load_cqHead in
  store_cqHead (u32 (head + 1)).

Definition SeenCQEs (n : Z) : M unit :=
  let* head := load_cqHead in
  store_cqHead (u32 (head + n)).

Definition WaitCQE : M (Z * Z * Z * option Error) :=
  let* c := closed_Load in
  if c then ret (0, 0, 0, Some ErrRingClosed)
  else
    let* '(userData, res, flags, ok) := PeekCQE in
    if ok then ret (userData, res, flags, None)
    else
      let* '(_, err) := SubmitAndWait 1 in
      match err with
      | Some e => ret (0, 0, 0, Some e)
      | None =>
          let* '(userData, res, flags, ok) := PeekCQE in
          if ok then ret (userData, res, flags, None)
          else ret (0, 0, 0, Some (Errno EAGAIN))
      end.

(** [err == syscall.E]. *)
Definition is_errno (e : Z) (err : Error) : bool :=
  match err with
  | Errno n => n =? e
  | _ => false
  end.

(** [waitCQETimeoutPoll]: [time.Now] reads the clock of the world; the
    [for] loop runs on [fuel]. *)
Fixpoint waitCQETimeoutPoll_loop (fuel : nat) (deadline : Z)
  : M (Z * Z * Z * option Error) :=
  match fuel with
  | O => abort OutOfFuel
  | S fuel' =>
      let* '(userData, res, flags, ok) := PeekCQE in
      if ok then ret (userData, res, flags, None)
      else
        let* w := get in
        let remaining := deadline - now w in
        if remaining <=? 0 then ret (0, 0, 0, Some (Errno ETIME))
        else
          let sleepTime := remaining in
          let sleepTime :=
            if sleepTime >? 10 * Millisecond then 10 * Millisecond else sleepTime in
          let* '(_, err) := SubmitAndWait 1 in
          match err with
          | None => waitCQETimeoutPoll_loop fuel' deadline
          | Some e =>
              if is_errno EINTR e then waitCQETimeoutPoll_loop fuel' deadline
              else ret (0, 0, 0, Some e)
          end
  end.

Definition waitCQETimeoutPoll (fuel : nat) (timeout : Z)
  : M (Z * Z * Z * option Error) :=
  let* w := get in
  let deadline := now w + timeout in
  waitCQETimeoutPoll_loop fuel deadline.

Definition WaitCQETimeout (fuel : nat) (timeout : Z) : M (Z * Z * Z * option Error) :=
  let* c := closed_Load in
  if c then ret (0, 0, 0, Some ErrRingClosed)
  else
    let* '(userData, res, flags, ok) := PeekCQE in
    if ok then ret (userData, res, flags, None)
    else
      let* ext := HasFeature IORING_FEAT_EXT_ARG in
      if negb ext then waitCQETimeoutPoll fuel timeout
      else
        let ts := Build_Timespec (Z.quot timeout Second) (Z.rem timeout Second) in
        sqLock_Lock ;;
        let* submitted := field Ring.sqPending in
        (if submitted >? 0 then
           let* tail := load_sqTail in
           store_sqTail (u32 (tail + submitted)) ;;
           modify_ring (Ring.set_sqPending 0)
         else ret tt) ;;
        sqLock_Unlock ;;
        let* fd := field Ring.fd in
        let* '(_, err) := EnterExt fd submitted 1 IORING_ENTER_GETEVENTS ts in
        match err with
        | Some e => ret (0, 0, 0, Some e)
        | None =>
            let* '(userData, res, flags, ok) := PeekCQE in
            if ok then ret (userData, res, flags, None)
            else ret (0, 0, 0, Some (Errno ETIME))
        end.

(** A [context.Context]: at each instant, nil while it is live and its
    [Err()] once it is done. *)
Definition Context : Type := Z -> option Error.

Fixpoint WaitCQEContext_loop (fuel : nat) (ctx : Context)
  : M (Z * Z * Z * option Error) :=
  match fuel with
  | O => abort OutOfFuel
  | S fuel' =>
      let* w := get in
      match ctx (now w) with
      | Some cause => ret (0, 0, 0, Some cause)
      | None =>
          let* '(userData, res, flags, err) :=
            WaitCQETimeout fuel' (100 * Millisecond) in
          match err with
          | Some e =>
              if is_errno ETIME e then WaitCQEContext_loop fuel' ctx
              else ret (userData, res, flags, err)
          | None => ret (userData, res, flags, err)
          end
      end
  end.

Definition WaitCQEContext (fuel : nat) (ctx : Context) : M (Z * Z * Z * option Error) :=
  let* c := closed_Load in
  if c then ret (0, 0, 0, Some ErrRingClosed)
  else
    let* '(userData, res, flags, ok) := PeekCQE in
    if ok then ret (userData, res, flags, None)
    else WaitCQEContext_loop fuel ctx.

(** [ForEachCQE]: the [for head != tail] loop runs on [fuel]; it returns
    the local [head] and [count]. *)
Fixpoint ForEachCQE_loop (fuel : nat) (fn : Z -> Z -> Z -> bool)
    (head tail count : Z) : M (Z * Z) :=
  if head =? tail then ret (head, count)
  else
    match fuel with
    | O => abort OutOfFuel
    | S fuel' =>
        let* mask := field Ring.cqMask in
        let idx := Z.land head mask in
        let* cqe := cqes_load idx in
        if negb (fn (CQE.UserData cqe) (CQE.Res cqe) (CQE.Flags cqe))
        then ret (head, count)
        else ForEachCQE_loop fuel' fn (u32 (head + 1)) tail (count + 1)
    end.

Definition ForEachCQE (fuel : nat) (fn : Z -> Z -> Z -> bool) : M Z :=
  let* head := load_cqHead in
  let* tail := load_cqTail in
  let* '(head, count) := ForEachCQE_loop fuel fn head tail 0 in
  (if count >? 0 then store_cqHead head else ret tt) ;;
  ret count.

Definition DrainCQEs : M Z :=
  let* head := load_cqHead in
  let* tail := load_cqTail in
  let count := u32 (tail - head) in
  (if count >? 0 then store_cqHead tail else ret tt) ;;
  ret count.

Definition CQOverflow : M Z := load_cqOverflow.

End Library.

(** [ResultError]: [-res] is computed in [int32] and converted to
    [syscall.Errno], a [uintptr]. *)
Definition ResultError (res : Z) : option Error :=
  if res >=? 0 then None else Some (Errno (u64 (i32 (- res)))).

(** ** internal/sys/types.go: the accessors of a completion entry *)

Definition IORING_CQE_F_BUFFER : Z := 2 ^ 0.
Definition IORING_CQE_F_MORE : Z := 2 ^ 1.
Definition IORING_CQE_F_SOCK_NONEMPTY : Z := 2 ^ 2.
Definition IORING_CQE_F_NOTIF : Z := 2 ^ 3.

Definition GetBufID (c : CQE.t) : Z := u16 (Z.shiftr (CQE.Flags c) 16).

Definition HasMore (c : CQE.t) : bool :=
  negb (Z.land (CQE.Flags c) IORING_CQE_F_MORE =? 0).

Definition IsNotification (c : CQE.t) : bool :=
  negb (Z.land (CQE.Flags c) IORING_CQE_F_NOTIF =? 0).

(** ** probe.go: the table of supported operations *)

Definition IO_URING_OP_SUPPORTED : Z := 2 ^ 0.

Record ProbeOp : Type := {
  po_Op : Z;
  po_Resv : Z;
  po_Flags : Z;
  po_Resv2 : Z
}.

(** [sys.Probe].  [Ops] is an array of [IORING_OP_LAST] elements: the
    list holds the elements the kernel filled, the elements after them
    are zero. *)
Record SysProbe : Type := {
  LastOp : Z;
  OpsLen : Z;
  Ops : list ProbeOp
}.

(** [iouring.Probe]. *)
Record RingProbe : Type := {
  probe : SysProbe;
  probe_features : Z
}.

(** [p.probe.Ops[op]]: [None] is the index-out-of-range panic of an
    array of [IORING_OP_LAST] elements. *)
Definition Ops_at (p : SysProbe) (op : Z) : option ProbeOp :=
  if op <? IORING_OP_LAST
  then Some (nth (Z.to_nat op) (Ops p) (Build_ProbeOp 0 0 0 0))
  else None.

(** [SupportsOp]; [op] is a [sys.Op], a [uint8]. *)
Definition SupportsOp (p : RingProbe) (op : Z) : option bool :=
  if u8 op >? LastOp (probe p) then Some false
  else
    match Ops_at (probe p) op with
    | Some o => Some (negb (Z.land (po_Flags o) IO_URING_OP_SUPPORTED =? 0))
    | None => None
    end.

Definition Probe_LastOp (p : RingProbe) : Z := LastOp (probe p).
Definition Probe_Features (p : RingProbe) : Z := probe_features p.
Definition Probe_HasFeature (p : RingProbe) (feature : Z) : bool :=
  negb (Z.land (probe_features p) feature =? 0).

(** ** Calls of the reservation interface

    One constructor per exported function of sqe.go that reserves a
    submission entry. *)

Inductive PrepCall : Type :=
| CallGetSQE
| CallNop (userData : Z)
| CallRead (fd : Z) (buf : Slice Z) (offset userData : Z)
| CallWrite (fd : Z) (buf : Slice Z) (offset userData : Z)
| CallReadFixed (fd : Z) (buf : Slice Z) (offset bufIndex userData : Z)
| CallWriteFixed (fd : Z) (buf : Slice Z) (offset bufIndex userData : Z)
| CallReadv (fd : Z) (iovecs : Slice Iovec) (offset userData : Z)
| CallWritev (fd : Z) (iovecs : Slice Iovec) (offset userData : Z)
| CallFsync (fd flags userData : Z)
| CallTimeout (ts count flags userData : Z)
| CallTimeoutRemove (targetUserData userData : Z)
| CallLinkTimeout (ts flags userData : Z)
| CallCancel (targetUserData flags userData : Z)
| CallAccept (fd addr addrLen flags userData : Z)
| CallAcceptMultishot (fd addr addrLen flags userData : Z)
| CallConnect (fd addr addrLen userData : Z)
| CallSend (fd : Z) (buf : Slice Z) (flags userData : Z)
| CallRecv (fd : Z) (buf : Slice Z) (flags userData : Z)
| CallRecvMultishot (fd bufGroup flags userData : Z)
| CallClose (fd userData : Z)
| CallShutdown (fd how userData : Z)
| CallSendmsg (fd msg flags userData : Z)
| CallRecvmsg (fd msg flags userData : Z)
| CallSocket (domain typ protocol userData : Z)
| CallPollAdd (fd pollMask userData : Z)
| CallPollAddMultishot (fd pollMask userData : Z)
| CallPollRemove (targetUserData userData : Z)
| CallOpenat (dirfd path flags mode userData : Z)
| CallStatx (dirfd path flags mask statxbuf userData : Z)
| CallSplice (fdIn offIn fdOut offOut nbytes flags userData : Z).

(** What a reservation call hands back: the [error] of a builder or the
    [*SQE] of [GetSQE]. *)
Inductive Reply : Type :=
| Status (err : option Error)
| Pointer (sqe : option Z).

Definition status (m : M (option Error)) : M Reply :=
  let* err := m in ret (Status err).

Definition run_call (c : PrepCall) : M Reply :=
  match c with
  | CallGetSQE => let* sqe := GetSQE in ret (Pointer sqe)
  | CallNop ud => status (PrepNop ud)
  | CallRead fd buf off ud => status (PrepRead fd buf off ud)
  | CallWrite fd buf off ud => status (PrepWrite fd buf off ud)
  | CallReadFixed fd buf off bi ud => status (PrepReadFixed fd buf off bi ud)
  | CallWriteFixed fd buf off bi ud => status (PrepWriteFixed fd buf off bi ud)
  | CallReadv fd iov off ud => status (PrepReadv fd iov off ud)
  | CallWritev fd iov off ud => status (PrepWritev fd iov off ud)
  | CallFsync fd fl ud => status (PrepFsync fd fl ud)
  | CallTimeout ts n fl ud => status (PrepTimeout ts n fl ud)
  | CallTimeoutRemove t ud => status (PrepTimeoutRemove t ud)
  | CallLinkTimeout ts fl ud => status (PrepLinkTimeout ts fl ud)
  | CallCancel t fl ud => status (PrepCancel t fl ud)
  | CallAccept fd a al fl ud => status (PrepAccept fd a al fl ud)
  | CallAcceptMultishot fd a al fl ud => status (PrepAcceptMultishot fd a al fl ud)
  | CallConnect fd a al ud => status (PrepConnect fd a al ud)
  | CallSend fd buf fl ud => status (PrepSend fd buf fl ud)
  | CallRecv fd buf fl ud => status (PrepRecv fd buf fl ud)
  | CallRecvMultishot fd g fl ud => status (PrepRecvMultishot fd g fl ud)
  | CallClose fd ud => status (PrepClose fd ud)
  | CallShutdown fd how ud => status (PrepShutdown fd how ud)
  | CallSendmsg fd msg fl ud => status (PrepSendmsg fd msg fl ud)
  | CallRecvmsg fd msg fl ud => status (PrepRecvmsg fd msg fl ud)
  | CallSocket d t p ud => status (PrepSocket d t p ud)
  | CallPollAdd fd pm ud => status (PrepPollAdd fd pm ud)
  | CallPollAddMultishot fd pm ud => status (PrepPollAddMultishot fd pm ud)
  | CallPollRemove t ud => status (PrepPollRemove t ud)
  | CallOpenat d p fl mode ud => status (PrepOpenat d p fl mode ud)
  | CallStatx d p fl mask sb ud => status (PrepStatx d p fl mask sb ud)
  | CallSplice fi oi fo oo n fl ud => status (PrepSplice fi oi fo oo n fl ud)
  end.

(** A call reserves an entry unless it is an I/O builder given an empty
    buffer, which returns before it takes the lock. *)
Definition reserves (c : PrepCall) : bool :=
  match c with
  | CallRead _ buf _ _ | CallWrite _ buf _ _
  | CallReadFixed _ buf _ _ _ | CallWriteFixed _ buf _ _ _
  | CallSend _ buf _ _ | CallRecv _ buf _ _ => negb (len buf =? 0)
  | CallReadv _ iov _ _ | CallWritev _ iov _ _ => negb (len iov =? 0)
  | _ => true
  end.

Definition reply_ok (r : Reply) : bool :=
  match r with
  | Status None => true
  | Pointer (Some _) => true
  | _ => false
  end.

(** [ErrSQFull] from a builder, the nil pointer from [GetSQE]. *)
Definition reply_full (r : Reply) : bool :=
  match r with
  | Status (Some ErrSQFull) => true
  | Pointer None => true
  | _ => false
  end.

(** Successive calls, replies in order. *)
Fixpoint run_calls (cs : list PrepCall) : M (list Reply) :=
  match cs with
  | [] => ret []
  | c :: cs' =>
      let* r := run_call c in
      let* rs := run_calls cs' in
      ret (r :: rs)
  end.

(** ** Kernels and rings to run the library on *)

(** The ring words as the kernel leaves them when it stores nothing. *)
Definition no_writes (m : Mem) : KWrites :=
  Build_KWrites (sq_head m) (sq_flags m) (sq_dropped m)
                (cq_tail m) (cq_flags m) (cq_overflow m) (cqes m).

(** The kernel consumes [n] submission entries from [head] on and posts
    one completion with result 0 for each, as for [IORING_OP_NOP]. *)
Fixpoint complete_nops (n : nat) (m : Mem) (head tail : Z) (cq : list CQE.t)
  : Z * list CQE.t :=
  match n with
  | O => (tail, cq)
  | S n' =>
      let slot := nth (Z.to_nat (Z.land head (sq_ring_mask m))) (sq_array m) 0 in
      let sqe := nth (Z.to_nat slot) (sqes m) SQE.zero in
      let cqe := CQE.mk (SQE.UserData sqe) 0 0 in
      complete_nops n' m (u32 (head + 1)) (u32 (tail + 1))
                    (<[Z.to_nat (Z.land tail (cq_ring_mask m)) := cqe]> cq)
  end.

Definition nop_enter (w : World) (toSubmit : Z) (elapsed : Z) : EnterReply :=
  let m := mem w in
  let ready := u32 (sq_tail m - sq_head m) in
  let n := Z.min toSubmit ready in
  let '(tail, cq) := complete_nops (Z.to_nat n) m (sq_head m) (cq_tail m) (cqes m) in
  Build_EnterReply (SysOk n)
    (Build_KWrites (u32 (sq_head m + n)) (sq_flags m) (sq_dropped m)
                   tail (cq_flags m) (cq_overflow m) cq)
    elapsed.

(** The rings a setup with [2 ^ k] submission entries creates. *)
Definition new_image (k : Z) : Mem :=
  let C := 2 ^ k in
  mkMem false false false
        0 0 (C - 1) C 0 0 (repeat 0 (Z.to_nat C)) (repeat SQE.zero (Z.to_nat C))
        0 0 (2 * C - 1) (2 * C) 0 0 (repeat (CQE.mk 0 0 0) (Z.to_nat (2 * C))).

Definition new_params (k : Z) (features : Z) (p : Params.t) : Params.t :=
  let C := 2 ^ k in
  Params.mk C (2 * C) (Params.Flags p) (Params.SQThreadCPU p) (Params.SQThreadIdle p)
            features (Params.WQFd p)
            (Build_SQRingOffsets 0 4 16 24 36 32 (64 + 2 * C * 16))
            (Build_CQRingOffsets 8 12 20 28 44 64 40).

(** A kernel that reports the feature word [features], rounds the
    requested size up to a power of two, maps whatever is asked and
    completes every submission as a no-op after a microsecond. *)
Definition nop_kernel (features : Z) : Kernel :=
  {| sys_setup := fun _ entries p =>
       SetupOk 3 (new_params (Z.log2_up entries) features p)
               (new_image (Z.log2_up entries));
     sys_mmap := fun _ _ _ _ => None;
     sys_enter := fun w _ toSubmit _ _ _ => nop_enter w toSubmit 1000;
     sys_register := fun _ _ _ _ => None;
     sys_close := fun _ _ => None |}.

(** A kernel with nothing to complete: [enter] sleeps for an hour, stores
    nothing, and is then interrupted by a signal. *)
Definition stalled_kernel (features : Z) : Kernel :=
  {| sys_setup := sys_setup (nop_kernel features);
     sys_mmap := fun _ _ _ _ => None;
     sys_enter := fun w _ _ _ _ _ =>
       Build_EnterReply (SysErr EINTR) (no_writes (mem w)) (3600 * Second);
     sys_register := fun _ _ _ _ => None;
     sys_close := fun _ _ => None |}.

(** The world before any ring exists. *)
Definition boot : World :=
  mkWorld (Ring.make 0 Params.zero)
          (mkMem false false false 0 0 0 0 0 0 [] [] 0 0 0 0 0 0 [])
          [] 0.

(** The world a successful [New] leaves, and the outcome of a call on it. *)
Definition world_of {A : Type} (o : Outcome A) : World :=
  match o with
  | Ret _ w => w
  | Abort _ => boot
  end.

Definition after {A : Type} (m : M A) (w : World) : World := world_of (m w).

(** A ring of four entries on separate mappings, one on a single mapping,
    and one in kernel-polled submission mode. *)
Definition ring4 : World := after (New (nop_kernel 0) 4 []) boot.
Definition ring4_single : World :=
  after (New (nop_kernel IORING_FEAT_SINGLE_MMAP) 4 []) boot.
Definition ring4_sqpoll : World := after (New (nop_kernel 0) 4 [WithSQPoll]) boot.

(** ** States of the ring the theorems speak about *)

(** The submission ring and the entry array are mapped, as [mapRings]
    leaves them. *)
Definition sq_mapped (w : World) : Prop :=
  Ring.sqRing (ring w) = Some RegSQ /\ map_sq (mem w) = true.

Definition sqes_mapped (w : World) : Prop :=
  Ring.sqesMmap (ring w) = Some RegSQEs /\ map_sqes (mem w) = true.

(** The submission side can be used without a fault: the lock is free,
    the ring and the entry array are mapped, and every index up to the
    mask is inside the slices and inside the regions. *)
Record sq_ready (w : World) : Prop := {
  ready_unlocked : Ring.sqLock (ring w) = false;
  ready_sq : sq_mapped w;
  ready_sqes : sqes_mapped w;
  ready_mask : 0 <= Ring.sqMask (ring w);
  ready_entries : Ring.sqMask (ring w) < Ring.sqEntries (ring w);
  ready_slots : Ring.sqMask (ring w) < Params.SQEntries (Ring.params (ring w));
  ready_array_len : Ring.sqMask (ring w) < Z.of_nat (length (sq_array (mem w)));
  ready_sqes_len : Ring.sqMask (ring w) < Z.of_nat (length (sqes (mem w)))
}.

(** A ring as [New] returns it, before any reservation, [Submit] or
    kernel activity: open, ready, with capacity [C], both submission
    counters and the pending counter at zero. *)
Record fresh_ring (C : Z) (w : World) : Prop := {
  fresh_open : Ring.closed (ring w) = false;
  fresh_ready : sq_ready w;
  fresh_capacity : Ring.sqEntries (ring w) = C;
  fresh_mask : Ring.sqMask (ring w) = C - 1;
  fresh_range : 0 < C < 2 ^ 32;
  fresh_head : sq_head (mem w) = 0;
  fresh_tail : sq_tail (mem w) = 0;
  fresh_pending : Ring.sqPending (ring w) = 0
}.

(** What [io_uring_setup] promises of the rings it creates (the kernel's
    side of the interface, not code of this repository): a capacity that
    fits [uint32], the mask one below it, both counters at zero, and an
    index array and an entry array of that many slots. *)
Definition setup_contract (K : Kernel) : Prop :=
  forall (w : World) (entries : Z) (p : Params.t) (fd : Z) (p' : Params.t) (image : Mem),
    sys_setup K w entries p = SetupOk fd p' image ->
    0 < Params.SQEntries p' < 2 ^ 32 /\
    sq_ring_entries image = Params.SQEntries p' /\
    sq_ring_mask image = Params.SQEntries p' - 1 /\
    sq_head image = 0 /\
    sq_tail image = 0 /\
    Z.of_nat (length (sq_array image)) = Params.SQEntries p' /\
    Z.of_nat (length (sqes image)) = Params.SQEntries p'.

(** The [Ring] struct and the memory a successful [New] leaves, given
    what setup returned. *)
Definition opened (fd : Z) (p : Params.t) (image : Mem) : Ring.t * Mem :=
  (Ring.mk fd p (Params.Features p) (Some RegSQ)
           (sq_ring_entries image) (sq_ring_mask image) (Some RegSQEs)
           (Some (if singleMmap p then RegSQ else RegCQ))
           (cq_ring_entries image) (cq_ring_mask image) false 0 false,
   mkMem true (negb (singleMmap p)) true
         (sq_head image) (sq_tail image) (sq_ring_mask image) (sq_ring_entries image)
         (sq_flags image) (sq_dropped image) (sq_array image) (sqes image)
         (cq_head image) (cq_tail image) (cq_ring_mask image) (cq_ring_entries image)
         (cq_flags image) (cq_overflow image) (cqes image)).

(** The test of [getSQE]: published plus pending is below the capacity. *)
Definition sq_room (w : World) : bool :=
  negb (u32 (u32 (sq_tail (mem w) + Ring.sqPending (ring w)) - sq_head (mem w))
        >=? Ring.sqEntries (ring w)).

(** The slot [getSQE] hands out next. *)
Definition next_slot (w : World) : Z :=
  Z.land (u32 (sq_tail (mem w) + Ring.sqPending (ring w))) (Ring.sqMask (ring w)).

(** The world after one reservation that left [s] in the reserved slot. *)
Definition reserve (s : SQE.t) (w : World) : World :=
  mkWorld (Ring.set_sqPending (u32 (Ring.sqPending (ring w) + 1)) (ring w))
          (set_sq_array (<[Z.to_nat (next_slot w) := u32 (next_slot w)]> (sq_array (mem w)))
             (set_sqes (<[Z.to_nat (next_slot w) := s]> (sqes (mem w))) (mem w)))
          (trace w) (now w).

(** Only the pending counter, the entry array and the index array differ
    between [w] and [w']: the rest of the [Ring] struct, every ring word
    (the submission tail among them), the trace of system calls and the
    clock are the same. *)
Definition reservation_frame (w w' : World) : Prop :=
  ring w' = Ring.set_sqPending (Ring.sqPending (ring w')) (ring w) /\
  mem w' = set_sq_array (sq_array (mem w')) (set_sqes (sqes (mem w')) (mem w)) /\
  trace w' = trace w /\
  now w' = now w.

(** Kernel-polled submission mode, as [needsWakeup] and [Submit] test it. *)
Definition sqpoll_mode (w : World) : Prop :=
  Z.land (Params.Flags (Ring.params (ring w))) IORING_SETUP_SQPOLL <> 0.

Definition wakeup_clear (w : World) : Prop :=
  Z.land (sq_flags (mem w)) IORING_SQ_NEED_WAKEUP = 0.

(** [Submit] made no system call and returned [n]. *)
Definition submit_elided (K : Kernel) (w : World) (n : Z) : Prop :=
  exists w', Submit K w = Ret (n, None) w' /\ trace w' = trace w.

(** What holds of the ring when [Submit] has returned: nothing pending
    and the tail advanced by what was pending. *)
Definition published (w w' : World) : Prop :=
  Ring.sqPending (ring w') = 0 /\
  sq_tail (mem w') = u32 (sq_tail (mem w) + Ring.sqPending (ring w)).

(** A call that fails with [ErrRingClosed] and leaves the world alone. *)
Definition refused (m : M (option Error)) (w : World) : Prop :=
  m w = Ret (Some ErrRingClosed) w.


(** The regions in the order the trace maps them, and in the order it
    unmaps them. *)
Fixpoint mapping_order (tr : list Event) : list Region :=
  match tr with
  | [] => []
  | EvMmap _ off _ :: tr' =>
      match region_at off with
      | Some g => g :: mapping_order tr'
      | None => mapping_order tr'
      end
  | _ :: tr' => mapping_order tr'
  end.

Fixpoint unmapping_order (tr : list Event) : list Region :=
  match tr with
  | [] => []
  | EvMunmap g :: tr' => g :: unmapping_order tr'
  | _ :: tr' => unmapping_order tr'
  end.

(** ** Configurations

    The options ring.go exports, as values, so that a list of them can be
    permuted and compared. *)

Inductive OptionCall : Type :=
| OptSQPoll
| OptSQPollCPU (cpu : Z)
| OptSQPollIdle (ms : Z)
| OptIOPoll
| OptCQSize (size : Z)
| OptSingleIssuer
| OptDeferTaskrun
| OptCoopTaskrun
| OptFlags (flags : Z).

Definition option_of (c : OptionCall) : Option :=
  match c with
  | OptSQPoll => WithSQPoll
  | OptSQPollCPU cpu => WithSQPollCPU cpu
  | OptSQPollIdle ms => WithSQPollIdle ms
  | OptIOPoll => WithIOPoll
  | OptCQSize size => WithCQSize size
  | OptSingleIssuer => WithSingleIssuer
  | OptDeferTaskrun => WithDeferTaskrun
  | OptCoopTaskrun => WithCoopTaskrun
  | OptFlags flags => WithFlags flags
  end.

(** The loop of [New] over its options. *)
Definition configure (cs : list OptionCall) (p : Params.t) : Params.t :=
  fold_left (fun p opt => opt p) (map option_of cs) p.

(** The flag bits an option ORs in. *)
Definition option_bits (c : OptionCall) : Z :=
  match c with
  | OptSQPoll => IORING_SETUP_SQPOLL
  | OptSQPollCPU _ => IORING_SETUP_SQ_AFF
  | OptSQPollIdle _ => 0
  | OptIOPoll => IORING_SETUP_IOPOLL
  | OptCQSize _ => IORING_SETUP_CQSIZE
  | OptSingleIssuer => IORING_SETUP_SINGLE_ISSUER
  | OptDeferTaskrun => Z.lor IORING_SETUP_DEFER_TASKRUN IORING_SETUP_SINGLE_ISSUER
  | OptCoopTaskrun => IORING_SETUP_COOP_TASKRUN
  | OptFlags flags => flags
  end.

(** ** More states, kernels and rings *)

(** No region of the ring descriptor is mapped. *)
Definition nothing_mapped (m : Mem) : Prop :=
  map_sq m = false /\ map_cq m = false /\ map_sqes m = false.

(** The completion ring can be read without a fault: it is mapped, every
    index up to the mask is inside the slice of entries and inside the
    region, and the two counters are [uint32] words. *)
Record cq_ready (w : World) : Prop := {
  cq_ready_region :
    exists g, Ring.cqRing (ring w) = Some g /\ mapped g (mem w) = true;
  cq_ready_mask : 0 <= Ring.cqMask (ring w);
  cq_ready_entries : Ring.cqMask (ring w) < Ring.cqEntries (ring w);
  cq_ready_len : Ring.cqMask (ring w) < Z.of_nat (length (cqes (mem w)));
  cq_ready_head : 0 <= cq_head (mem w) < 2 ^ 32;
  cq_ready_tail : 0 <= cq_tail (mem w) < 2 ^ 32
}.

(** The completion queue holds no entry. *)
Definition cq_empty (w : World) : Prop := cq_head (mem w) = cq_tail (mem w).

(** The invariant of the submission side: what is published and not yet
    consumed, plus what is pending, fits the capacity. *)
Record sq_bounded (w : World) : Prop := {
  bounded_head : 0 <= sq_head (mem w) < 2 ^ 32;
  bounded_tail : 0 <= sq_tail (mem w) < 2 ^ 32;
  bounded_pending : 0 <= Ring.sqPending (ring w);
  bounded_entries : Ring.sqEntries (ring w) < 2 ^ 32;
  bounded_sum :
    u32 (sq_tail (mem w) - sq_head (mem w)) + Ring.sqPending (ring w)
    <= Ring.sqEntries (ring w)
}.

(** The slot of the entry array that position [t] of the submission
    queue uses. *)
Definition slot_at (w : World) (t : Z) : Z := Z.land (u32 t) (Ring.sqMask (ring w)).

(** The world with the completion head at [h]. *)
Definition with_cq_head (h : Z) (w : World) : World :=
  set_mem (set_cq_head h (mem w)) w.

(** The world with flag bits [flags] ORed into the entry in [slot]. *)
Definition with_flags (slot flags : Z) (w : World) : World :=
  set_mem (set_sqes (alter (fun s => SQE.set_Flags (Z.lor (SQE.Flags s) flags) s)
                           (Z.to_nat slot) (sqes (mem w)))
                    (mem w)) w.

(** A kernel on which the mapping of the entry array fails with
    [ENOMEM]; everything else is [nop_kernel]. *)
Definition ENOMEM : Z := 12.

Definition sqes_mmap_fails (features : Z) : Kernel :=
  {| sys_setup := sys_setup (nop_kernel features);
     sys_mmap := fun _ _ off _ => if off =? IORING_OFF_SQES then Some ENOMEM else None;
     sys_enter := sys_enter (nop_kernel features);
     sys_register := fun _ _ _ _ => None;
     sys_close := fun _ _ => None |}.


(** [ring4] with three no-ops submitted and completed. *)
Definition ring4_three_done : World :=
  after (run_calls [CallNop 1; CallNop 2; CallNop 3] ;; Submit (nop_kernel 0)) ring4.

(** The token a call hands to the builder; [GetSQE] takes none and the
    entry it returns is zeroed. *)
Definition call_userData (c : PrepCall) : Z :=
  match c with
  | CallGetSQE => 0
  | CallNop ud => ud
  | CallRead _ _ _ ud | CallWrite _ _ _ ud => ud
  | CallReadFixed _ _ _ _ ud | CallWriteFixed _ _ _ _ ud => ud
  | CallReadv _ _ _ ud | CallWritev _ _ _ ud => ud
  | CallFsync _ _ ud => ud
  | CallTimeout _ _ _ ud => ud
  | CallTimeoutRemove _ ud => ud
  | CallLinkTimeout _ _ ud => ud
  | CallCancel _ _ ud => ud
  | CallAccept _ _ _ _ ud | CallAcceptMultishot _ _ _ _ ud => ud
  | CallConnect _ _ _ ud => ud
  | CallSend _ _ _ ud | CallRecv _ _ _ ud => ud
  | CallRecvMultishot _ _ _ ud => ud
  | CallClose _ ud => ud
  | CallShutdown _ _ ud => ud
  | CallSendmsg _ _ _ ud | CallRecvmsg _ _ _ ud => ud
  | CallSocket _ _ _ ud => ud
  | CallPollAdd _ _ ud | CallPollAddMultishot _ _ ud => ud
  | CallPollRemove _ ud => ud
  | CallOpenat _ _ _ _ ud => ud
  | CallStatx _ _ _ _ _ ud => ud
  | CallSplice _ _ _ _ _ _ ud => ud
  end.

(** ** Proof support *)

Arguments u8 : simpl never.
Arguments u16 : simpl never.
Arguments u32 : simpl never.
Arguments u64 : simpl never.
Arguments i32 : simpl never.
Arguments singleMmap : simpl never.

Ltac open_world w :=
  destruct w as [[? ? ? ? ? ? ? ? ? ? ? ? ?]
                 [? ? ? ? ? ? ? ? ? ? ? ? ? ? ? ? ? ?] ? ?];
  simpl in *.

Create HintDb go discriminated.
#[local] Hint Unfold bind ret get abort update modify_ring modify_mem access
  in_sq in_cq in_sqes load_sqHead load_sqTail load_sqFlags store_sqTail
  load_cqHead load_cqTail load_cqOverflow store_cqHead sqLock_Lock sqLock_Unlock
  field closed_Load closed_Swap needsWakeup set_ring set_mem log elapse
  Enter EnterExt Register syscall_Close Munmap HasFeature : go.

(** Run the monadic code as far as the known facts allow. *)
Ltac go := repeat (autounfold with go; simpl).

(** Decide a closed fact about a concrete world by evaluation. *)
Ltac by_eval :=
  vm_compute;
  first [ reflexivity
        | discriminate
        | let H := fresh in intro H; discriminate H
        | split; first [ reflexivity | discriminate
                       | let H := fresh in intro H; discriminate H ] ].

(** Follow every branch of the code. *)
Ltac branches :=
  repeat (go;
          match goal with
          | |- context [match ?x with _ => _ end] =>
              lazymatch x with
              | context [match _ with _ => _ end] => fail
              | _ => destruct x eqn:?
              end
          end).

Lemma u32_range (z : Z) : 0 <= u32 z < 2 ^ 32.
Proof. unfold u32. apply Z.mod_pos_bound. lia. Qed.

Lemma u32_small (z : Z) : 0 <= z < 2 ^ 32 -> u32 z = z.
Proof. intros H. unfold u32. apply Z.mod_small. exact H. Qed.

Lemma land_mask_bound (a m : Z) : 0 <= a -> 0 <= m -> 0 <= Z.land a m <= m.
Proof.
  intros Ha Hm. split.
  - apply Z.land_nonneg. left. exact Ha.
  - rewrite <- (Z2N.id a Ha), <- (Z2N.id m Hm) at 1.
    rewrite <- N2Z.inj_land.
    rewrite <- (Z2N.id m Hm) at 2.
    apply N2Z.inj_le, N.land_le_r.
Qed.

Lemma next_slot_bound (w : World) :
  0 <= Ring.sqMask (ring w) -> 0 <= next_slot w <= Ring.sqMask (ring w).
Proof.
  intros Hm. unfold next_slot. apply land_mask_bound; [| exact Hm].
  apply u32_range.
Qed.

Lemma mapping_order_app (a b : list Event) :
  mapping_order (a ++ b) = mapping_order a ++ mapping_order b.
Proof.
  induction a as [| e a IH]; simpl; [reflexivity|].
  destruct e; simpl; try exact IH.
  destruct (region_at off); simpl; rewrite IH; reflexivity.
Qed.

(** ** New *)

(** A [New] that returns a ring went through setup and two or three
    mappings, in the order submission ring, completion ring (unless the
    kernel reports the single mapping), entry array; it leaves the struct
    and the memory of [opened]. *)
Lemma New_success (K : Kernel) (entries : Z) (opts : list Option) (w0 w : World) :
  New K entries opts w0 = Ret None w ->
  exists fd p image,
    sys_setup K w0 entries (fold_left (fun p opt => opt p) opts Params.zero)
      = SetupOk fd p image /\
    ring w = fst (opened fd p image) /\
    mem w = snd (opened fd p image) /\
    now w = now w0 /\
    exists p0 l1 l2 l3,
      trace w = trace w0 ++ [EvSetup entries p0; EvMmap fd IORING_OFF_SQ_RING l1] ++
        (if singleMmap p then [] else [EvMmap fd IORING_OFF_CQ_RING l2]) ++
        [EvMmap fd IORING_OFF_SQES l3].
Proof.
  unfold New. destruct (entries =? 0); [discriminate|].
  unfold Setup. go.
  destruct (sys_setup K w0 entries _) as [fd p image | e] eqn:Hsetup; go;
    [| discriminate].
  unfold mapRings, Mmap. go.
  destruct (_ <=? 0); go; [discriminate|].
  destruct (sys_mmap K _ fd IORING_OFF_SQ_RING _); go; [discriminate|].
  destruct (singleMmap p) eqn:Es; go.
  - destruct (_ <=? 0); go; [discriminate|].
    destruct (sys_mmap K _ fd IORING_OFF_SQES _); go; [discriminate|].
    intros H. injection H as <-. exists fd, p, image. simpl. rewrite ?Es. simpl.
    split; [reflexivity|].
    split; [reflexivity|]. split; [destruct image; reflexivity|].
    split; [reflexivity|].
    eexists _, _, 0, _. rewrite <- !app_assoc. simpl. reflexivity.
  - destruct (_ <=? 0); go; [discriminate|].
    destruct (sys_mmap K _ fd IORING_OFF_CQ_RING _); go; [discriminate|].
    destruct (_ <=? 0); go; [discriminate|].
    destruct (sys_mmap K _ fd IORING_OFF_SQES _); go; [discriminate|].
    intros H. injection H as <-. exists fd, p, image. simpl. rewrite ?Es. simpl.
    split; [reflexivity|].
    split; [reflexivity|]. split; [destruct image; reflexivity|].
    split; [reflexivity|].
    eexists _, _, _, _. rewrite <- !app_assoc. simpl. reflexivity.
Qed.

(** On a kernel that keeps the setup contract, the ring [New] returns
    is fresh, with the capacity the kernel reported. *)
Lemma New_makes_fresh_ring (K : Kernel) (entries : Z) (opts : list Option)
    (w0 w : World) :
  setup_contract K ->
  New K entries opts w0 = Ret None w ->
  fresh_ring (Params.SQEntries (Ring.params (ring w))) w.
Proof.
  intros HK HN.
  destruct (New_success K entries opts w0 w HN)
    as (fd & p & image & Hs & Hr & Hm & _).
  destruct (HK _ _ _ _ _ _ Hs) as (HC & He & Hmask & Hh & Ht & Ha & Hz).
  destruct w as [r m tr t]. simpl in *. subst r m. simpl.
  split; simpl; try assumption; try reflexivity; try lia.
  split; simpl; try reflexivity; try lia.
  - split; reflexivity.
  - split; reflexivity.
Qed.

(** ** Reservation *)

(** The facts that decide every test on the way through a reservation. *)
Ltac reservation_facts w :=
  match goal with
  | H : sq_ready w |- _ =>
      let Hl := fresh "Hl" in let Hs := fresh "Hs" in let Hms := fresh "Hms" in
      let Hq := fresh "Hq" in let Hmq := fresh "Hmq" in let Hm := fresh "Hm" in
      let He := fresh "He" in let Hp := fresh "Hp" in let Ha := fresh "Ha" in
      let Hz := fresh "Hz" in let Hn := fresh "Hn" in
      destruct H as [Hl [Hs Hms] [Hq Hmq] Hm He Hp Ha Hz];
      pose proof (next_slot_bound w Hm) as Hn;
      let s0 := fresh "s0" in let Hs0 := fresh "Hs0" in
      let a0 := fresh "a0" in let Ha0 := fresh "Ha0" in
      destruct (lookup_lt_is_Some_2 (sqes (mem w)) (Z.to_nat (next_slot w))
                  ltac:(lia)) as [s0 Hs0];
      destruct (lookup_lt_is_Some_2 (sq_array (mem w)) (Z.to_nat (next_slot w))
                  ltac:(lia)) as [a0 Ha0];
      let H1 := fresh "Hlt" in let H2 := fresh "Hlt" in let H3 := fresh "Hin" in
      assert (H1 : (next_slot w <? Params.SQEntries (Ring.params (ring w))) = true)
        by (apply Z.ltb_lt; lia);
      assert (H2 : (next_slot w <? Ring.sqEntries (ring w)) = true)
        by (apply Z.ltb_lt; lia);
      assert (H3 : (Z.to_nat (next_slot w) < length (sqes (mem w)))%nat) by lia
  end.

(** A builder on a ring with room: the slot is reset, the fields are
    assigned, the index array points at the slot, pending goes up by one. *)
Lemma prep_room (fs : list (SQE.t -> SQE.t)) (w : World) :
  sq_ready w -> sq_room w = true ->
  prep fs w = Ret None (reserve (assign fs SQE.zero) w).
Proof.
  intros Hw Hr. reservation_facts w.
  unfold sq_room in Hr. apply negb_true_iff in Hr.
  unfold prep, getSQE, sqes_index, sqe_update, sqArray_store, reserve.
  unfold next_slot in *.
  open_world w. subst.
  repeat (go; rewrite ?Hr, ?Hlt, ?Hlt0, ?Hs0, ?Ha0).
  rewrite list_lookup_insert_eq by exact Hin. go.
  rewrite list_insert_insert_eq. reflexivity.
Qed.

(** A builder on a full ring: [ErrSQFull], and the world as it was. *)
Lemma prep_full (fs : list (SQE.t -> SQE.t)) (w : World) :
  sq_ready w -> sq_room w = false ->
  prep fs w = Ret (Some ErrSQFull) w.
Proof.
  intros [Hl [Hs Hms] _ _ _ _ _ _] Hr.
  unfold sq_room in Hr. apply negb_false_iff in Hr.
  unfold prep, getSQE.
  open_world w. subst.
  repeat (go; rewrite ?Hr). reflexivity.
Qed.

Lemma GetSQE_room (w : World) :
  sq_ready w -> sq_room w = true ->
  GetSQE w = Ret (Some (next_slot w)) (reserve SQE.zero w).
Proof.
  intros Hw Hr. reservation_facts w.
  unfold sq_room in Hr. apply negb_true_iff in Hr.
  unfold GetSQE, getSQE, sqes_index, sqe_update, sqArray_store, reserve.
  unfold next_slot in *.
  open_world w. subst.
  repeat (go; rewrite ?Hr, ?Hlt, ?Hlt0, ?Hs0, ?Ha0).
  reflexivity.
Qed.

Lemma GetSQE_full (w : World) :
  sq_ready w -> sq_room w = false ->
  GetSQE w = Ret None w.
Proof.
  intros [Hl [Hs Hms] _ _ _ _ _ _] Hr.
  unfold sq_room in Hr. apply negb_false_iff in Hr.
  unfold GetSQE, getSQE.
  open_world w. subst.
  repeat (go; rewrite ?Hr). reflexivity.
Qed.

Lemma reserve_ready (s : SQE.t) (w : World) : sq_ready w -> sq_ready (reserve s w).
Proof.
  intros [Hl [Hs Hms] [Hq Hmq] Hm He Hp Ha Hz].
  unfold reserve. split; simpl; try assumption.
  - split; simpl; assumption.
  - split; simpl; assumption.
  - rewrite length_insert. exact Ha.
  - rewrite length_insert. exact Hz.
Qed.

Lemma reservation_frame_refl (w : World) : reservation_frame w w.
Proof.
  unfold reservation_frame. open_world w. repeat split; reflexivity.
Qed.

Lemma reservation_frame_reserve (s : SQE.t) (w w' : World) :
  reservation_frame (reserve s w) w' -> reservation_frame w w'.
Proof.
  unfold reservation_frame, reserve. simpl.
  intros (Hr & Hm & Ht & Hn). rewrite Hr, Hm, Ht, Hn.
  destruct (ring w), (mem w). simpl. repeat split; reflexivity.
Qed.

Lemma status_prep_room (fs : list (SQE.t -> SQE.t)) (w : World) :
  sq_ready w -> sq_room w = true ->
  status (prep fs) w = Ret (Status None) (reserve (assign fs SQE.zero) w).
Proof.
  intros Hw Hr. unfold status, bind. rewrite (prep_room fs w Hw Hr). reflexivity.
Qed.

Lemma status_prep_full (fs : list (SQE.t -> SQE.t)) (w : World) :
  sq_ready w -> sq_room w = false ->
  status (prep fs) w = Ret (Status (Some ErrSQFull)) w.
Proof.
  intros Hw Hr. unfold status, bind. rewrite (prep_full fs w Hw Hr). reflexivity.
Qed.

(** What one call does on a ring that is ready: nothing when it is an
    I/O builder given an empty buffer; otherwise one reservation when
    there is room, and a refusal that changes nothing when there is none. *)
Lemma run_call_cases (c : PrepCall) (w : World) :
  sq_ready w ->
  (reserves c = false /\ run_call c w = Ret (Status None) w) \/
  (reserves c = true /\
   if sq_room w
   then exists r s, reply_ok r = true /\ run_call c w = Ret r (reserve s w)
   else exists r, reply_full r = true /\ run_call c w = Ret r w).
Proof.
  intros Hw.
  destruct c; simpl;
    unfold PrepNop, PrepRead, PrepWrite, PrepReadFixed, PrepWriteFixed, PrepReadv,
      PrepWritev, PrepFsync, PrepTimeout, PrepTimeoutRemove, PrepLinkTimeout,
      PrepCancel, PrepAccept, PrepAcceptMultishot, PrepConnect, PrepSend, PrepRecv,
      PrepRecvMultishot, PrepClose, PrepShutdown, PrepSendmsg, PrepRecvmsg,
      PrepSocket, PrepPollAdd, PrepPollAddMultishot, PrepPollRemove, PrepOpenat,
      PrepStatx, PrepSplice;
    try match goal with
        | |- context [len ?b =? 0] =>
            destruct (len b =? 0); simpl; [left; split; reflexivity |]
        end;
    right; (split; [reflexivity |]);
    destruct (sq_room w) eqn:Er.
  all: try (rewrite (status_prep_room _ w Hw Er);
            eexists _, _; split; [| reflexivity]; reflexivity).
  all: try (rewrite (status_prep_full _ w Hw Er);
            eexists; split; [| reflexivity]; reflexivity).
  - unfold bind. rewrite (GetSQE_room w Hw Er).
    eexists _, _; split; [| reflexivity]; reflexivity.
  - unfold bind. rewrite (GetSQE_full w Hw Er).
    eexists; split; [| reflexivity]; reflexivity.
Qed.

(** Filling a ring whose counters are at zero: [k] entries are pending,
    the calls that remain bring the count to the capacity, and then there
    is no room. *)
Lemma fill_up (C : Z) (calls : list PrepCall) :
  0 < C < 2 ^ 32 ->
  forall (w : World) (k : Z),
    sq_ready w ->
    sq_head (mem w) = 0 -> sq_tail (mem w) = 0 ->
    Ring.sqPending (ring w) = k -> Ring.sqEntries (ring w) = C ->
    0 <= k -> k + Z.of_nat (length calls) = C ->
    Forall (fun c => reserves c = true) calls ->
    exists replies w',
      run_calls calls w = Ret replies w' /\
      length replies = length calls /\
      Forall (fun r => reply_ok r = true) replies /\
      sq_ready w' /\ sq_room w' = false.
Proof.
  intros HC. induction calls as [| c calls IH]; intros w k Hw Hh Ht Hp He Hk Hlen Hres.
  - exists [], w. simpl in Hlen.
    split; [reflexivity|]. split; [reflexivity|]. split; [constructor|].
    split; [exact Hw|].
    unfold sq_room. rewrite Hh, Ht, Hp, He, Z.add_0_l, Z.sub_0_r.
    rewrite (u32_small k), (u32_small k) by lia.
    apply negb_false_iff, Z.geb_le. lia.
  - apply Forall_cons in Hres. destruct Hres as [Hc Hres'].
    simpl length in Hlen.
    destruct (run_call_cases c w Hw) as [[Hno _] | [_ H]]; [congruence|].
    assert (Er : sq_room w = true).
    { unfold sq_room. rewrite Hh, Ht, Hp, He, Z.add_0_l, Z.sub_0_r.
      rewrite (u32_small k), (u32_small k) by lia.
      apply negb_true_iff. rewrite Z.geb_leb. apply Z.leb_gt. lia. }
    rewrite Er in H. destruct H as (r & s & Hok & Hrun).
    destruct (IH (reserve s w) (k + 1))
      as (rs & w' & Hrs & Hl & Hoks & Hw' & Hfull); try assumption.
    + apply reserve_ready, Hw.
    + unfold reserve. simpl. rewrite Hp. apply u32_small. lia.
    + lia.
    + lia.
    + exists (r :: rs), w'. split.
      * simpl. unfold bind. rewrite Hrun, Hrs. reflexivity.
      * split; [simpl; congruence|]. split; [constructor; assumption|].
        split; assumption.
Qed.

(** C3.  On a freshly created ring of capacity [C], with no [Submit] and
    no kernel activity in between, each of the first [C] reservations
    succeeds ([nil] from a builder, a pointer from [GetSQE]); the next
    one, whichever call it is, reports the full queue ([ErrSQFull] from a
    builder such as [PrepNop], nil from [GetSQE]) and leaves the world as
    it was: pending counter, tail, index array and everything else. *)
Theorem capacity_reservations_then_queue_full :
  forall (C : Z) (w : World) (calls : list PrepCall) (extra : PrepCall) (userData : Z),
    fresh_ring C w ->
    Z.of_nat (length calls) = C ->
    Forall (fun c => reserves c = true) calls ->
    reserves extra = true ->
    exists replies w',
      run_calls calls w = Ret replies w' /\
      length replies = length calls /\
      Forall (fun r => reply_ok r = true) replies /\
      (exists r, run_call extra w' = Ret r w' /\ reply_full r = true) /\
      PrepNop userData w' = Ret (Some ErrSQFull) w'.
Proof.
  intros C w calls extra userData [Ho Hw Hc Hm Hr Hh Ht Hp] Hlen Hres Hx.
  destruct (fill_up C calls Hr w 0 Hw Hh Ht Hp Hc ltac:(lia) ltac:(lia) Hres)
    as (rs & w' & Hrun & Hl & Hoks & Hw' & Hfull).
  exists rs, w'. split; [exact Hrun|]. split; [exact Hl|]. split; [exact Hoks|].
  split.
  - destruct (run_call_cases extra w' Hw') as [[Hno _] | [_ H]]; [congruence|].
    rewrite Hfull in H. destruct H as (r & Hf & H). exists r. split; assumption.
  - apply prep_full; assumption.
Qed.

Lemma capacity_reservations_then_queue_full_witness :
  exists replies w',
    run_calls [CallNop 1; CallNop 2; CallNop 3; CallNop 4] ring4 = Ret replies w' /\
    length replies = 4%nat /\
    Forall (fun r => reply_ok r = true) replies /\
    (exists r, run_call CallGetSQE w' = Ret r w' /\ reply_full r = true) /\
    PrepNop 5 w' = Ret (Some ErrSQFull) w'.
Proof.
  apply (capacity_reservations_then_queue_full
           4 ring4 [CallNop 1; CallNop 2; CallNop 3; CallNop 4] CallGetSQE 5).
  - split; try by_eval. split; by_eval.
  - reflexivity.
  - repeat constructor.
  - reflexivity.
Defined.

(** C9.  Any number of successive reservation calls ([GetSQE] and the
    [Prep*] builders, successful or not), with no [Submit],
    [SubmitAndWait] or timed wait in between, return and leave the
    submission tail in the shared ring as it was; between the world before
    and the world after, only the pending counter, the entry array and the
    index array can differ. *)
Theorem reservations_leave_tail_unpublished :
  forall (calls : list PrepCall) (w : World),
    sq_ready w ->
    exists replies w',
      run_calls calls w = Ret replies w' /\
      sq_tail (mem w') = sq_tail (mem w) /\
      reservation_frame w w'.
Proof.
  induction calls as [| c calls IH]; intros w Hw.
  - exists [], w. split; [reflexivity|]. split; [reflexivity|].
    apply reservation_frame_refl.
  - assert (Hstep : exists r w1, run_call c w = Ret r w1 /\ sq_ready w1 /\
                      sq_tail (mem w1) = sq_tail (mem w) /\
                      (forall w', reservation_frame w1 w' -> reservation_frame w w')).
    { destruct (run_call_cases c w Hw) as [[_ H] | [_ H]].
      - eexists _, w. split; [exact H|]. split; [exact Hw|].
        split; [reflexivity | auto].
      - destruct (sq_room w).
        + destruct H as (r & s & _ & H). exists r, (reserve s w).
          split; [exact H|]. split; [apply reserve_ready, Hw|].
          split; [reflexivity|]. apply reservation_frame_reserve.
        + destruct H as (r & _ & H). exists r, w. split; [exact H|].
          split; [exact Hw|]. split; [reflexivity | auto]. }
    destruct Hstep as (r & w1 & Hc & Hw1 & Ht & Hf).
    destruct (IH w1 Hw1) as (rs & w' & Hrs & Ht' & Hf').
    exists (r :: rs), w'. split.
    + simpl. unfold bind. rewrite Hc, Hrs. reflexivity.
    + split; [congruence | apply Hf, Hf'].
Qed.

Lemma reservations_leave_tail_unpublished_witness :
  exists replies w',
    run_calls [CallNop 1; CallRead 5 (mkSlice 4096 [0; 0]) 0 2; CallGetSQE] ring4
      = Ret replies w' /\
    sq_tail (mem w') = sq_tail (mem ring4) /\
    reservation_frame ring4 w'.
Proof.
  apply (reservations_leave_tail_unpublished
           [CallNop 1; CallRead 5 (mkSlice 4096 [0; 0]) 0 2; CallGetSQE] ring4).
  split; by_eval.
Defined.

(** ** Empty buffers *)

(** C7.  Each of the eight I/O builders, given a buffer of length zero
    (an empty iovec slice for the vectored ones), returns nil at once: it
    reserves no entry and leaves the whole world, the pending counter and
    the rings included, as it was, whatever state the ring is in. *)
Theorem empty_buffer_consumes_nothing :
  forall (w : World) (buf : Slice Z) (iovecs : Slice Iovec)
         (fd offset bufIndex flags userData : Z),
    len buf = 0 -> len iovecs = 0 ->
    PrepRead fd buf offset userData w = Ret None w /\
    PrepWrite fd buf offset userData w = Ret None w /\
    PrepReadFixed fd buf offset bufIndex userData w = Ret None w /\
    PrepWriteFixed fd buf offset bufIndex userData w = Ret None w /\
    PrepReadv fd iovecs offset userData w = Ret None w /\
    PrepWritev fd iovecs offset userData w = Ret None w /\
    PrepSend fd buf flags userData w = Ret None w /\
    PrepRecv fd buf flags userData w = Ret None w.
Proof.
  intros w buf iovecs fd offset bufIndex flags userData Hb Hi.
  unfold PrepRead, PrepWrite, PrepReadFixed, PrepWriteFixed,
    PrepReadv, PrepWritev, PrepSend, PrepRecv.
  rewrite Hb, Hi. simpl. repeat split; reflexivity.
Qed.

Lemma empty_buffer_consumes_nothing_witness :
  let buf := mkSlice 4096 (@nil Z) in
  let iov := mkSlice 8192 (@nil Iovec) in
  PrepRead 5 buf 0 1 ring4 = Ret None ring4 /\
  PrepWritev 5 iov 0 2 ring4 = Ret None ring4.
Proof.
  intros buf iov.
  destruct (empty_buffer_consumes_nothing ring4 buf iov 5 0 0 0 1
              ltac:(reflexivity) ltac:(reflexivity)) as (H1 & _).
  destruct (empty_buffer_consumes_nothing ring4 buf iov 5 0 0 0 2
              ltac:(reflexivity) ltac:(reflexivity)) as (_ & _ & _ & _ & _ & H6 & _).
  split; assumption.
Defined.

(** ** Flags on the last reserved entry *)

(** C10.  With nothing pending, [SetSQEFlags] takes the lock, finds the
    counter at zero and releases the lock: no submission entry, no slot of
    the index array, neither the tail nor the pending counter changes.
    [SetSQELink] and [SetSQEAsync] are calls of it. *)
Theorem SetSQEFlags_nothing_pending :
  forall (w : World) (flags : Z),
    Ring.sqPending (ring w) = 0 ->
    Ring.sqLock (ring w) = false ->
    SetSQEFlags flags w = Ret tt w /\
    SetSQELink w = Ret tt w /\
    SetSQEAsync w = Ret tt w.
Proof.
  intros w flags Hp Hl. open_world w. subst.
  repeat split; reflexivity.
Qed.

Lemma SetSQEFlags_nothing_pending_witness :
  SetSQEFlags IOSQE_IO_LINK ring4 = Ret tt ring4 /\
  SetSQELink ring4 = Ret tt ring4 /\
  SetSQEAsync ring4 = Ret tt ring4.
Proof.
  apply (SetSQEFlags_nothing_pending ring4 IOSQE_IO_LINK); by_eval.
Defined.

(** ** Configuration options *)

(** C6, as the code has it.  [WithSQPollCPU] stores the CPU index and
    sets the affinity flag [IORING_SETUP_SQ_AFF]; the [IORING_SETUP_SQPOLL]
    bit is after the option what it was before it (ring.go: "Must be used
    with WithSQPoll"). *)
Theorem WithSQPollCPU_sets_affinity_only :
  forall (cpu : Z) (p : Params.t),
    Params.SQThreadCPU (WithSQPollCPU cpu p) = cpu /\
    Z.land (Params.Flags (WithSQPollCPU cpu p)) IORING_SETUP_SQ_AFF
      = IORING_SETUP_SQ_AFF /\
    Z.land (Params.Flags (WithSQPollCPU cpu p)) IORING_SETUP_SQPOLL
      = Z.land (Params.Flags p) IORING_SETUP_SQPOLL.
Proof.
  intros cpu p. unfold WithSQPollCPU, or_Flags. simpl.
  split; [reflexivity|]. split.
  - apply Z.bits_inj'. intros n Hn.
    rewrite Z.land_spec, Z.lor_spec.
    destruct (Z.testbit (Params.Flags p) n), (Z.testbit IORING_SETUP_SQ_AFF n);
      reflexivity.
  - rewrite Z.land_lor_distr_l.
    change (Z.land IORING_SETUP_SQ_AFF IORING_SETUP_SQPOLL) with 0.
    apply Z.lor_0_r.
Qed.

(** C6 as stated fails: applied alone, to the zero parameters [New]
    starts from, [WithSQPollCPU 3] stores the CPU index but leaves the
    SQPOLL bit clear, and the ring [New] then creates is not in
    kernel-polled submission mode. *)
Lemma WithSQPollCPU_does_not_force_sqpoll :
  Params.SQThreadCPU (WithSQPollCPU 3 Params.zero) = 3 /\
  ~ (Z.land (Params.Flags (WithSQPollCPU 3 Params.zero)) IORING_SETUP_SQPOLL <> 0) /\
  ~ sqpoll_mode (after (New (nop_kernel 0) 4 [WithSQPollCPU 3]) boot).
Proof.
  split; [reflexivity|]. split.
  - intros H. apply H. reflexivity.
  - intros H. apply H. vm_compute. reflexivity.
Qed.

(** ** Submit *)

(** C1, as the code has it.  In kernel-polled submission mode with the
    needs-wakeup bit clear, a [Submit] that has entries to publish makes
    no system call and returns the number of entries it published. *)
Theorem Submit_sqpoll_elides_enter :
  forall (K : Kernel) (w : World),
    Ring.closed (ring w) = false ->
    Ring.sqLock (ring w) = false ->
    sq_mapped w ->
    sqpoll_mode w ->
    wakeup_clear w ->
    Ring.sqPending (ring w) <> 0 ->
    submit_elided K w (Ring.sqPending (ring w)).
Proof.
  intros K w Hc Hl [Hs Hm] Hq Hw Hp.
  unfold sqpoll_mode, wakeup_clear, submit_elided in *.
  apply Z.eqb_neq in Hq, Hp. apply Z.eqb_eq in Hw.
  open_world w. subst.
  unfold Submit. repeat (go; rewrite ?Hp, ?Hq, ?Hw).
  eexists. split; reflexivity.
Qed.

Lemma Submit_sqpoll_elides_enter_witness :
  submit_elided (nop_kernel 0) (after (PrepNop 1) ring4_sqpoll) 1.
Proof.
  apply (Submit_sqpoll_elides_enter (nop_kernel 0) (after (PrepNop 1) ring4_sqpoll)).
  - by_eval.
  - by_eval.
  - split; by_eval.
  - by_eval.
  - by_eval.
  - by_eval.
Defined.

(** C1 as stated fails: on a polled ring of four entries with one no-op
    pending and the needs-wakeup bit clear, [Submit] does not return 0 (it
    returns 1, the count it published). *)
Lemma Submit_sqpoll_does_not_return_zero :
  let w := after (PrepNop 1) ring4_sqpoll in
  (Ring.closed (ring w) = false /\ sqpoll_mode w /\ wakeup_clear w /\
   Ring.sqPending (ring w) = 1) /\
  ~ submit_elided (nop_kernel 0) w 0.
Proof.
  intros w. split.
  - repeat split; by_eval.
  - intros (w' & H & _). vm_compute in H. discriminate H.
Qed.

(** C4, as the code has it.  On a ring that has not been closed, every
    return from [Submit], whether [enter] succeeded, failed or was not
    called, leaves the pending counter at zero and the published tail at
    the prior tail plus the count that was pending (in [uint32]); and
    [Submit] does return. *)
Theorem Submit_leaves_nothing_pending :
  forall (K : Kernel) (w : World),
    Ring.closed (ring w) = false ->
    Ring.sqLock (ring w) = false ->
    sq_mapped w ->
    0 <= sq_tail (mem w) < 2 ^ 32 ->
    exists res w', Submit K w = Ret res w' /\ published w w'.
Proof.
  intros K w Hc Hl [Hs Hm] Ht. unfold published.
  open_world w. subst.
  unfold Submit. go.
  match goal with
  | |- context [?p =? 0] => destruct (Z.eqb_spec p 0) as [-> | Hp]
  end; go.
  - do 2 eexists. split; [reflexivity|]. simpl.
    split; [reflexivity|]. rewrite Z.add_0_r, u32_small; [reflexivity | lia].
  - apply Z.eqb_neq in Hp.
    destruct (Z.land _ IORING_SETUP_SQPOLL =? 0) eqn:Eq;
      repeat (go; rewrite ?Hp, ?Eq);
      [| destruct (Z.land _ IORING_SQ_NEED_WAKEUP =? 0) eqn:Ew; go ];
      try (destruct (er_ret _); go);
      do 2 eexists; (split; [reflexivity|]); simpl; auto.
Qed.

Lemma Submit_leaves_nothing_pending_witness :
  let w := after (PrepNop 1) ring4 in
  exists res w', Submit (stalled_kernel 0) w = Ret res w' /\ published w w'.
Proof.
  intros w.
  apply (Submit_leaves_nothing_pending (stalled_kernel 0) w).
  - by_eval.
  - by_eval.
  - split; by_eval.
  - by_eval.
Defined.

(** C4 as stated fails on a closed ring: after [PrepNop] and [Close],
    [Submit] returns [ErrRingClosed] with the entry still pending and the
    tail where it was. *)
Lemma Submit_on_closed_ring_keeps_pending :
  let K := nop_kernel 0 in
  let w := after (PrepNop 1 ;; Close K) ring4 in
  Submit K w = Ret (0, Some ErrRingClosed) w /\
  ~ (forall res w', Submit K w = Ret res w' -> published w w').
Proof.
  intros K w.
  assert (Hs : Submit K w = Ret (0, Some ErrRingClosed) w) by (vm_compute; reflexivity).
  split; [exact Hs|].
  intros H. destruct (H (0, Some ErrRingClosed) w Hs) as [Hp _].
  vm_compute in Hp. discriminate Hp.
Qed.

(** ** Close *)

(** C2, as the code has it.  Once the closed flag is set, [Submit],
    [SubmitAndWait], [WaitCQE], [WaitCQETimeout] and [WaitCQEContext]
    fail with [ErrRingClosed], and a further [Close] returns nil; each
    leaves the world as it was, so none makes a system call, and, since
    this holds also where every region is unmapped and any load or store
    would stop the call, none touches a region. *)
Theorem closed_ring_refuses_submit_and_waits :
  forall (K : Kernel) (w : World) (n timeout : Z) (fuel : nat) (ctx : Context),
    Ring.closed (ring w) = true ->
    Submit K w = Ret (0, Some ErrRingClosed) w /\
    SubmitAndWait K n w = Ret (0, Some ErrRingClosed) w /\
    WaitCQE K w = Ret (0, 0, 0, Some ErrRingClosed) w /\
    WaitCQETimeout K fuel timeout w = Ret (0, 0, 0, Some ErrRingClosed) w /\
    WaitCQEContext K fuel ctx w = Ret (0, 0, 0, Some ErrRingClosed) w /\
    Close K w = Ret None w.
Proof.
  intros K w n timeout fuel ctx Hc. open_world w. subst.
  repeat split; reflexivity.
Qed.

Lemma closed_ring_refuses_submit_and_waits_witness :
  let K := nop_kernel 0 in
  let w := after (Close K) ring4 in
  Submit K w = Ret (0, Some ErrRingClosed) w /\
  SubmitAndWait K 1 w = Ret (0, Some ErrRingClosed) w /\
  WaitCQE K w = Ret (0, 0, 0, Some ErrRingClosed) w /\
  WaitCQETimeout K 3 Millisecond w = Ret (0, 0, 0, Some ErrRingClosed) w /\
  WaitCQEContext K 3 (fun _ => None) w = Ret (0, 0, 0, Some ErrRingClosed) w /\
  Close K w = Ret None w.
Proof.
  intros K w.
  apply (closed_ring_refuses_submit_and_waits K w 1 Millisecond 3 (fun _ => None)).
  by_eval.
Defined.

(** C2 as stated fails: on a ring of four entries that has been closed,
    [PrepRead] with an empty buffer returns nil; [RegisterFiles] with no
    descriptors returns [EINVAL]; [RegisterEventfd] goes to the kernel
    with the closed descriptor; [PrepNop], [GetSQE], [PeekCQE], [SeenCQE],
    [DrainCQEs] and [ForEachCQE] load from the unmapped rings. *)
Lemma closed_ring_operations_not_refused :
  let K := nop_kernel 0 in
  let w := after (Close K) ring4 in
  Ring.closed (ring w) = true /\
  PrepRead 5 (mkSlice 4096 []) 0 1 w = Ret None w /\
  RegisterFiles K [] w = Ret (Some (Errno EINVAL)) w /\
  ~ refused (RegisterEventfd K 7) w /\
  ~ refused (PrepNop 1) w /\
  PeekCQE w = Abort Segv /\
  SeenCQE w = Abort Segv /\
  DrainCQEs w = Abort Segv /\
  ForEachCQE 1 (fun _ _ _ => true) w = Abort Segv /\
  GetSQE w = Abort Segv.
Proof.
  intros K w. unfold refused.
  repeat split;
    first [ vm_compute; reflexivity | intros H; vm_compute in H; discriminate H ].
Qed.

(** After [Close] on a ring [New] returned, the flag is set and no
    region is mapped any more: every load or store through the ring's
    pointers stops the call. *)
Lemma Close_leaves_nothing_mapped (K : Kernel) (entries : Z) (opts : list Option)
    (w0 w w' : World) (err : option Error) :
  New K entries opts w0 = Ret None w ->
  Close K w = Ret err w' ->
  Ring.closed (ring w') = true /\
  in_sq w' = Abort Segv /\ in_cq w' = Abort Segv /\ in_sqes w' = Abort Segv.
Proof.
  intros HN.
  destruct (New_success K entries opts w0 w HN)
    as (fd & p & image & _ & Hr & Hm & _).
  destruct w as [r m tr t]. simpl in *. subst r m.
  unfold Close. go. unfold singleMmap.
  destruct (Z.land (Params.Features p) IORING_FEAT_SINGLE_MMAP =? 0); go;
    intros H; injection H as _ <-; repeat split; reflexivity.
Qed.

(** C5, as the code has it.  On a ring [New] returned, whose regions
    were mapped in the order submission ring, completion ring (when
    separate), entry array, [Close] unmaps the completion ring first
    (when separate), then the submission ring, then the entry array, and
    then closes the ring descriptor. *)
Theorem Close_unmaps_cq_sq_sqes_then_closes :
  forall (K : Kernel) (entries : Z) (opts : list Option) (w0 w : World),
    New K entries opts w0 = Ret None w ->
    let separate := if singleMmap (Ring.params (ring w)) then [] else [RegCQ] in
    mapping_order (trace w) =
      mapping_order (trace w0) ++ [RegSQ] ++ separate ++ [RegSQEs] /\
    exists err w',
      Close K w = Ret err w' /\
      trace w' = trace w ++ map EvMunmap (separate ++ [RegSQ; RegSQEs])
                         ++ [EvCloseFd (Ring.fd (ring w))].
Proof.
  intros K entries opts w0 w HN.
  destruct (New_success K entries opts w0 w HN)
    as (fd & p & image & _ & Hr & Hm & _ & p0 & l1 & l2 & l3 & Ht).
  destruct w as [r m tr t]. simpl in *. subst r m tr. simpl.
  split.
  - rewrite mapping_order_app. f_equal.
    destruct (singleMmap p); reflexivity.
  - unfold Close. go. unfold singleMmap.
    destruct (Z.land (Params.Features p) IORING_FEAT_SINGLE_MMAP =? 0); go.
    + do 2 eexists. split; [reflexivity|]. simpl. rewrite <- !app_assoc. reflexivity.
    + do 2 eexists. split; [reflexivity|]. simpl. rewrite <- !app_assoc. reflexivity.
Qed.

Lemma Close_unmaps_cq_sq_sqes_then_closes_witness :
  exists err w',
    Close (nop_kernel 0) ring4 = Ret err w' /\
    trace w' = trace ring4 ++
      [EvMunmap RegCQ; EvMunmap RegSQ; EvMunmap RegSQEs; EvCloseFd 3].
Proof.
  assert (HN : New (nop_kernel 0) 4 [] boot = Ret None ring4)
    by (vm_compute; reflexivity).
  destruct (Close_unmaps_cq_sq_sqes_then_closes (nop_kernel 0) 4 [] boot ring4 HN)
    as [_ H].
  exact H.
Defined.

(** C5 as stated fails: for a ring of four entries on separate mappings
    the regions are mapped in the order submission ring, completion ring,
    entry array, and [Close] unmaps them in the order completion ring,
    submission ring, entry array, which is neither the reverse of the
    mapping order nor submission ring first. *)
Lemma Close_does_not_unmap_in_reverse :
  let K := nop_kernel 0 in
  let tr := trace (after (Close K) ring4) in
  mapping_order tr = [RegSQ; RegCQ; RegSQEs] /\
  unmapping_order tr = [RegCQ; RegSQ; RegSQEs] /\
  unmapping_order tr <> rev (mapping_order tr).
Proof.
  intros K tr.
  split; [vm_compute; reflexivity|]. split; [vm_compute; reflexivity|].
  intros H. vm_compute in H. discriminate H.
Qed.

(** ** Timed wait without the extended argument *)

Lemma PeekCQE_reads_only (w w' : World) (r : Z * Z * Z * bool) :
  PeekCQE w = Ret r w' -> w' = w.
Proof.
  unfold PeekCQE, cqes_load. open_world w.
  branches; intros H; try discriminate H; injection H; auto.
Qed.



(** C8 at a failing input.  The ring has no [IORING_FEAT_EXT_ARG], the
    completion queue is empty and the kernel has nothing to complete.  A
    wait with a timeout of one millisecond enters the kernel once, with
    [min_complete = 1] and no timeout argument: the capped [sleepTime]
    the loop has just computed is passed to nothing.  The call comes back
    when the kernel lets it, here an hour later on an interrupt, and only
    then is [ETIME] reported. *)
Theorem timed_wait_poll_outlasts_deadline :
  let K := stalled_kernel 0 in
  let w' := after (WaitCQETimeout K 2 Millisecond) ring4 in
  WaitCQETimeout K 2 Millisecond ring4 = Ret (0, 0, 0, Some (Errno ETIME)) w' /\
  trace w' = trace ring4 ++ [EvEnter 3 0 1 IORING_ENTER_GETEVENTS None] /\
  now w' - now ring4 = 3600 * Second.
Proof.
  intros K w'. split; [vm_compute; reflexivity|].
  split; vm_compute; reflexivity.
Qed.

(** ** Scenarios *)

(** Four no-ops with tokens 1 to 4 on a ring of four entries: [Submit]
    reports four, and four completions with result 0 carry the tokens. *)
Example scenario_four_nops :
  let K := nop_kernel 0 in
  let w := after (run_calls [CallNop 1; CallNop 2; CallNop 3; CallNop 4] ;; Submit K)
                 ring4 in
  (run_calls [CallNop 1; CallNop 2; CallNop 3; CallNop 4] ;; Submit K) ring4
    = Ret (4, None) w /\
  CQReady w = Ret 4 w /\
  firstn 4 (cqes (mem w)) = [CQE.mk 1 0 0; CQE.mk 2 0 0; CQE.mk 3 0 0; CQE.mk 4 0 0].
Proof.
  intros K w.
  split; [vm_compute; reflexivity|]. split; vm_compute; reflexivity.
Qed.

(** Five no-ops on a ring of four entries: the fifth reports the full
    queue; after [Submit] and a drain of four completions a sixth
    reservation succeeds, in the slot the first one used. *)
Example scenario_queue_full_then_drain :
  let K := nop_kernel 0 in
  let run :=
    let* rs := run_calls [CallNop 1; CallNop 2; CallNop 3; CallNop 4; CallNop 5] in
    let* '(n, _) := Submit K in
    let* drained := DrainCQEs in
    let* sixth := GetSQE in
    ret (rs, n, drained, sixth) in
  run ring4
    = Ret ([Status None; Status None; Status None; Status None;
            Status (Some ErrSQFull)], 4, 4, Some 0) (after run ring4).
Proof. intros K run. vm_compute. reflexivity. Qed.

(** * Further properties of the code *)

(** Decide the tests on the mapped flags of the regions. *)
Ltac split_flags :=
  repeat match goal with
         | |- context [if ?b then _ else _] => is_var b; destruct b; go
         end.

(** ** Options *)

Lemma option_of_flags (c : OptionCall) (p : Params.t) :
  Params.Flags (option_of c p) = Z.lor (Params.Flags p) (option_bits c).
Proof. destruct c; simpl; try reflexivity. symmetry. apply Z.lor_0_r. Qed.

Lemma configure_flags (cs : list OptionCall) (p : Params.t) :
  Params.Flags (configure cs p)
  = Z.lor (Params.Flags p) (fold_right Z.lor 0 (map option_bits cs)).
Proof.
  unfold configure. revert p.
  induction cs as [| c cs IH]; intros p; simpl.
  - symmetry. apply Z.lor_0_r.
  - rewrite IH, option_of_flags, Z.lor_assoc. reflexivity.
Qed.

Lemma lor_all_permutation (l l' : list Z) :
  Permutation l l' -> fold_right Z.lor 0 l = fold_right Z.lor 0 l'.
Proof.
  induction 1; simpl.
  - reflexivity.
  - congruence.
  - rewrite !Z.lor_assoc, (Z.lor_comm y x). reflexivity.
  - congruence.
Qed.

(** X1.  The flag word [New] hands to [io_uring_setup] does not depend
    on the order of the options: every option only ORs bits into
    [Flags], so two lists that hold the same options in any order give
    the same flags. *)
Theorem setup_flags_ignore_option_order :
  forall (cs cs' : list OptionCall) (p : Params.t),
    Permutation cs cs' ->
    Params.Flags (configure cs p) = Params.Flags (configure cs' p).
Proof.
  intros cs cs' p H. rewrite !configure_flags. f_equal.
  apply lor_all_permutation, Permutation_map, H.
Qed.

Lemma setup_flags_ignore_option_order_witness :
  Params.Flags (configure [OptSQPoll; OptCQSize 8; OptFlags 16] Params.zero)
  = Params.Flags (configure [OptFlags 16; OptSQPoll; OptCQSize 8] Params.zero).
Proof.
  apply (setup_flags_ignore_option_order
           [OptSQPoll; OptCQSize 8; OptFlags 16] [OptFlags 16; OptSQPoll; OptCQSize 8]).
  apply Permutation_sym, Permutation_cons_append.
Defined.

Lemma land_lor_absorb (a b : Z) : Z.land (Z.lor a b) b = b.
Proof.
  apply Z.bits_inj'. intros n Hn. rewrite Z.land_spec, Z.lor_spec.
  destruct (Z.testbit a n), (Z.testbit b n); reflexivity.
Qed.

Lemma lor_all_contains (b : Z) (l : list Z) :
  In b l -> Z.land (fold_right Z.lor 0 l) b = b.
Proof.
  induction l as [| x l IH]; simpl; [tauto|].
  intros [-> | H].
  - rewrite Z.lor_comm. apply land_lor_absorb.
  - apply Z.bits_inj'. intros n Hn.
    specialize (IH H). apply (f_equal (fun z => Z.testbit z n)) in IH.
    rewrite Z.land_spec in IH. rewrite Z.land_spec, Z.lor_spec.
    destruct (Z.testbit x n), (Z.testbit b n), (Z.testbit (fold_right Z.lor 0 l) n);
      simpl in *; congruence.
Qed.

(** X2.  No option clears a flag.  The bits of every option in the list
    ([IORING_SETUP_SINGLE_ISSUER] beside [IORING_SETUP_DEFER_TASKRUN] for
    [WithDeferTaskrun], [IORING_SETUP_SQ_AFF] for [WithSQPollCPU], the
    argument of [WithFlags]) and the bits set before the options ran are
    all set in the final flags, whatever options come before or after. *)
Theorem option_flags_survive_other_options :
  forall (cs : list OptionCall) (c : OptionCall) (p : Params.t),
    In c cs ->
    Z.land (Params.Flags (configure cs p)) (option_bits c) = option_bits c /\
    Z.land (Params.Flags (configure cs p)) (Params.Flags p) = Params.Flags p.
Proof.
  intros cs c p H. rewrite configure_flags. split.
  - rewrite Z.land_lor_distr_l.
    rewrite (lor_all_contains (option_bits c) (map option_bits cs)).
    + apply Z.bits_inj'. intros n Hn. rewrite Z.lor_spec, Z.land_spec.
      destruct (Z.testbit (Params.Flags p) n), (Z.testbit (option_bits c) n); reflexivity.
    + apply in_map, H.
  - rewrite Z.lor_comm. apply land_lor_absorb.
Qed.

Lemma option_flags_survive_other_options_witness :
  let f := Params.Flags (configure [OptDeferTaskrun; OptSQPollCPU 2; OptCQSize 64]
                                   Params.zero) in
  Z.land f (Z.lor IORING_SETUP_DEFER_TASKRUN IORING_SETUP_SINGLE_ISSUER)
    = Z.lor IORING_SETUP_DEFER_TASKRUN IORING_SETUP_SINGLE_ISSUER.
Proof.
  intros f.
  apply (option_flags_survive_other_options
           [OptDeferTaskrun; OptSQPollCPU 2; OptCQSize 64] OptDeferTaskrun Params.zero).
  left. reflexivity.
Defined.

(** ** What [New] maps and what it releases *)

(** X3.  A [New] that fails leaks nothing: called where no region is
    mapped it returns with no region mapped, whichever mapping failed,
    and when [io_uring_setup] had succeeded the last thing it did was to
    close the ring descriptor. *)
Theorem New_failure_releases_everything :
  forall (K : Kernel) (entries : Z) (opts : list Option) (w0 w : World) (e : Error),
    nothing_mapped (mem w0) ->
    New K entries opts w0 = Ret (Some e) w ->
    nothing_mapped (mem w) /\
    forall fd p image,
      entries <> 0 ->
      sys_setup K w0 entries (fold_left (fun p opt => opt p) opts Params.zero)
        = SetupOk fd p image ->
      exists tr, trace w = tr ++ [EvCloseFd fd].
Proof.
  intros K entries opts w0 w e (H1 & H2 & H3).
  unfold New, nothing_mapped. destruct (Z.eqb_spec entries 0) as [-> | Hne].
  { intros H. injection H as _ <-. split; [auto|]. intros ? ? ? Hne. contradiction. }
  unfold Setup. go.
  destruct (sys_setup K w0 entries _) as [fd p image | e0] eqn:Hsetup; go.
  2:{ intros H. injection H as _ <-. simpl. split; [auto|]. intros; discriminate. }
  unfold mapRings, Mmap.
  branches; intros H; try discriminate H; injection H as _ <-; simpl;
    (split; [auto|]); intros fd' p' image' _ Heq; injection Heq as <- <- <-; eauto.
Qed.

Lemma New_failure_releases_everything_witness :
  let K := sqes_mmap_fails 0 in
  let w := after (New K 4 []) boot in
  nothing_mapped (mem w) /\ exists tr, trace w = tr ++ [EvCloseFd 3].
Proof.
  intros K w.
  assert (HN : New K 4 [] boot = Ret (Some (Errno ENOMEM)) w) by (vm_compute; reflexivity).
  destruct (New_failure_releases_everything K 4 [] boot w (Errno ENOMEM)
              ltac:(repeat split) HN) as [Hm Hc].
  split; [exact Hm|].
  apply (Hc 3 (new_params (Z.log2_up 4) 0 Params.zero) (new_image (Z.log2_up 4)));
    [discriminate | reflexivity].
Defined.

Lemma max_as_test (a b : Z) : (if b >? a then b else a) = Z.max a b.
Proof. destruct (Z.gtb_spec b a); lia. Qed.

Lemma New_trace (K : Kernel) (entries : Z) (opts : list Option) (w0 w : World) :
  New K entries opts w0 = Ret None w ->
  exists fd p image,
    ring w = fst (opened fd p image) /\
    trace w =
      trace w0
      ++ [EvSetup entries (fold_left (fun p opt => opt p) opts Params.zero)]
      ++ (if singleMmap p
          then [EvMmap fd IORING_OFF_SQ_RING
                  (Z.max (u32 (sqoff_Array (Params.SQOff p) + u32 (Params.SQEntries p * 4)))
                         (u32 (cqoff_CQEs (Params.CQOff p) + u32 (Params.CQEntries p * 16))))]
          else [EvMmap fd IORING_OFF_SQ_RING
                  (u32 (sqoff_Array (Params.SQOff p) + u32 (Params.SQEntries p * 4)));
                EvMmap fd IORING_OFF_CQ_RING
                  (u32 (cqoff_CQEs (Params.CQOff p) + u32 (Params.CQEntries p * 16)))])
      ++ [EvMmap fd IORING_OFF_SQES (u32 (Params.SQEntries p * 64))].
Proof.
  unfold New. destruct (entries =? 0); [discriminate|].
  unfold Setup. go.
  destruct (sys_setup K w0 entries _) as [fd p image | e] eqn:Hsetup; go;
    [| discriminate].
  unfold mapRings, Mmap. go.
  destruct (singleMmap p) eqn:Es; go.
  - rewrite max_as_test.
    destruct (_ <=? 0); go; [discriminate|].
    destruct (sys_mmap K _ fd IORING_OFF_SQ_RING _); go; [discriminate|].
    destruct (_ <=? 0); go; [discriminate|].
    destruct (sys_mmap K _ fd IORING_OFF_SQES _); go; [discriminate|].
    intros H. injection H as <-. exists fd, p, image. simpl. rewrite ?Es. simpl.
    split; [reflexivity|]. rewrite <- !app_assoc. reflexivity.
  - destruct (_ <=? 0); go; [discriminate|].
    destruct (sys_mmap K _ fd IORING_OFF_SQ_RING _); go; [discriminate|].
    destruct (_ <=? 0); go; [discriminate|].
    destruct (sys_mmap K _ fd IORING_OFF_CQ_RING _); go; [discriminate|].
    destruct (_ <=? 0); go; [discriminate|].
    destruct (sys_mmap K _ fd IORING_OFF_SQES _); go; [discriminate|].
    intros H. injection H as <-. exists fd, p, image. simpl. rewrite ?Es. simpl.
    split; [reflexivity|]. rewrite <- !app_assoc. reflexivity.
Qed.

(** X4.  The system calls of a successful [New], in order: one
    [io_uring_setup] with the parameters the options built, then the
    mappings.  With [IORING_FEAT_SINGLE_MMAP] one mapping at the
    submission offset whose length is the larger of the two ring sizes,
    otherwise one of each ring's own size at its own offset; then the
    entry array, 64 bytes an entry.  The sizes are computed in [uint32]
    from the offsets and counts the kernel reported. *)
Theorem New_mapping_requests :
  forall (K : Kernel) (entries : Z) (opts : list Option) (w0 w : World),
    New K entries opts w0 = Ret None w ->
    let p := Ring.params (ring w) in
    let fd := Ring.fd (ring w) in
    let sq := u32 (sqoff_Array (Params.SQOff p) + u32 (Params.SQEntries p * 4)) in
    let cq := u32 (cqoff_CQEs (Params.CQOff p) + u32 (Params.CQEntries p * 16)) in
    trace w =
      trace w0
      ++ [EvSetup entries (fold_left (fun p opt => opt p) opts Params.zero)]
      ++ (if singleMmap p
          then [EvMmap fd IORING_OFF_SQ_RING (Z.max sq cq)]
          else [EvMmap fd IORING_OFF_SQ_RING sq; EvMmap fd IORING_OFF_CQ_RING cq])
      ++ [EvMmap fd IORING_OFF_SQES (u32 (Params.SQEntries p * 64))].
Proof.
  intros K entries opts w0 w HN.
  destruct (New_trace K entries opts w0 w HN) as (fd & p & image & Hr & Ht).
  rewrite Hr, Ht. simpl. reflexivity.
Qed.

Lemma New_mapping_requests_witness :
  trace ring4_single =
    [EvSetup 4 Params.zero; EvMmap 3 IORING_OFF_SQ_RING 208; EvMmap 3 IORING_OFF_SQES 256].
Proof.
  assert (HN : New (nop_kernel IORING_FEAT_SINGLE_MMAP) 4 [] boot = Ret None ring4_single)
    by (vm_compute; reflexivity).
  pose proof (New_mapping_requests _ _ _ _ _ HN) as H.
  vm_compute in H. vm_compute. exact H.
Defined.

(** ** The capacity invariant *)
Lemma bind_Ret {A B : Type} (m : M A) (k : A -> M B) (w w' : World) (b : B) :
  bind m k w = Ret b w' -> exists a w1, m w = Ret a w1 /\ k a w1 = Ret b w'.
Proof. unfold bind. destruct (m w) as [a w1 |]; [eauto | discriminate]. Qed.

Lemma land_le_l (a m : Z) : 0 <= a -> 0 <= m -> Z.land a m <= a.
Proof.
  intros Ha Hm. rewrite Z.land_comm. apply (land_mask_bound m a Hm Ha).
Qed.

Lemma u32_next_slot (w : World) :
  0 <= Ring.sqMask (ring w) -> u32 (next_slot w) = next_slot w.
Proof.
  intros Hm. apply u32_small. unfold next_slot.
  pose proof (u32_range (sq_tail (mem w) + Ring.sqPending (ring w))) as Hu.
  pose proof (land_mask_bound _ _ (proj1 Hu) Hm).
  pose proof (land_le_l _ _ (proj1 Hu) Hm). lia.
Qed.

Lemma u32_sub_add (t p h : Z) : u32 (u32 (t + p) - h) = u32 (u32 (t - h) + p).
Proof.
  unfold u32. rewrite Zminus_mod_idemp_l, Zplus_mod_idemp_l. f_equal. lia.
Qed.

Lemma sq_room_bounded (w : World) :
  sq_bounded w ->
  sq_room w = true <->
  u32 (sq_tail (mem w) - sq_head (mem w)) + Ring.sqPending (ring w)
  < Ring.sqEntries (ring w).
Proof.
  intros [Hh Ht Hp He Hs]. unfold sq_room.
  pose proof (u32_range (sq_tail (mem w) - sq_head (mem w))) as Hu.
  rewrite u32_sub_add, u32_small by lia.
  rewrite negb_true_iff, Z.geb_leb, Z.leb_gt. reflexivity.
Qed.

Lemma reserve_bounded (s : SQE.t) (w : World) :
  sq_bounded w -> sq_room w = true -> sq_bounded (reserve s w).
Proof.
  intros Hb Hr. pose proof (proj1 (sq_room_bounded w Hb) Hr) as Hlt.
  destruct Hb as [Hh Ht Hp He Hs].
  pose proof (u32_range (sq_tail (mem w) - sq_head (mem w))) as Hu.
  unfold reserve. split; simpl; try assumption.
  - apply u32_range.
  - rewrite (u32_small (Ring.sqPending (ring w) + 1)) by lia. lia.
Qed.

(** X5.  Reservations keep the ring within its capacity.  If what is
    published and not yet consumed plus what is pending fits the
    capacity, then every sequence of reservation calls returns, and it
    still fits afterwards, however many calls are made. *)
Theorem reservations_keep_within_capacity :
  forall (calls : list PrepCall) (w : World),
    sq_ready w -> sq_bounded w ->
    exists replies w',
      run_calls calls w = Ret replies w' /\ sq_bounded w'.
Proof.
  induction calls as [| c calls IH]; intros w Hw Hb.
  - exists [], w. split; [reflexivity | exact Hb].
  - assert (Hstep : exists r w1, run_call c w = Ret r w1 /\ sq_ready w1 /\ sq_bounded w1).
    { destruct (run_call_cases c w Hw) as [[_ H] | [_ H]].
      - eexists _, w. split; [exact H|]. split; assumption.
      - destruct (sq_room w) eqn:Er.
        + destruct H as (r & s & _ & H). exists r, (reserve s w).
          split; [exact H|]. split; [apply reserve_ready, Hw|].
          apply reserve_bounded; assumption.
        + destruct H as (r & _ & H). exists r, w. split; [exact H|].
          split; assumption. }
    destruct Hstep as (r & w1 & Hc & Hw1 & Hb1).
    destruct (IH w1 Hw1 Hb1) as (rs & w' & Hrs & Hb').
    exists (r :: rs), w'. split; [| exact Hb'].
    simpl. unfold bind. rewrite Hc, Hrs. reflexivity.
Qed.

Lemma reservations_keep_within_capacity_witness :
  exists replies w',
    run_calls [CallNop 1; CallNop 2; CallNop 3; CallNop 4; CallNop 5; CallGetSQE] ring4
      = Ret replies w' /\ sq_bounded w'.
Proof.
  apply (reservations_keep_within_capacity
           [CallNop 1; CallNop 2; CallNop 3; CallNop 4; CallNop 5; CallGetSQE] ring4).
  - split; by_eval.
  - split; by_eval.
Defined.

(** Distinct positions less than a capacity apart use distinct slots. *)
Lemma slot_at_distinct (w : World) (k t d : Z) :
  0 <= k <= 32 ->
  Ring.sqMask (ring w) = 2 ^ k - 1 ->
  0 < d < 2 ^ k ->
  slot_at w (t + d) <> slot_at w t.
Proof.
  intros Hk Hm Hd. unfold slot_at. rewrite Hm.
  replace (2 ^ k - 1) with (Z.ones k) by (rewrite Z.ones_equiv; lia).
  rewrite !Z.land_ones by lia. unfold u32.
  assert (Hdiv : (2 ^ k | 2 ^ 32)).
  { exists (2 ^ (32 - k)). rewrite <- Z.pow_add_r by lia. f_equal. lia. }
  assert (Hpos : 0 < 2 ^ k) by (apply Z.pow_pos_nonneg; lia).
  rewrite !Z.mod_mod_divide by exact Hdiv.
  intros Heq.
  assert (H0 : (t + d - t) mod 2 ^ k = 0).
  { rewrite Zminus_mod, Heq, Z.sub_diag. apply Z.mod_0_l. lia. }
  replace (t + d - t) with d in H0 by lia.
  rewrite Z.mod_small in H0 by lia. lia.
Qed.

(** What one call leaves of the ring's geometry and counters. *)
Lemma run_call_step (c : PrepCall) (w w' : World) (r : Reply) :
  sq_ready w -> sq_bounded w ->
  run_call c w = Ret r w' ->
  sq_ready w' /\ sq_bounded w' /\
  Ring.sqMask (ring w') = Ring.sqMask (ring w) /\
  Ring.sqEntries (ring w') = Ring.sqEntries (ring w) /\
  sq_tail (mem w') = sq_tail (mem w) /\
  sq_head (mem w') = sq_head (mem w) /\
  Ring.sqPending (ring w) <= Ring.sqPending (ring w').
Proof.
  intros Hw Hb Hrun.
  assert (Hsame : w' = w -> sq_ready w' /\ sq_bounded w' /\
            Ring.sqMask (ring w') = Ring.sqMask (ring w) /\
            Ring.sqEntries (ring w') = Ring.sqEntries (ring w) /\
            sq_tail (mem w') = sq_tail (mem w) /\
            sq_head (mem w') = sq_head (mem w) /\
            Ring.sqPending (ring w) <= Ring.sqPending (ring w')).
  { intros ->. repeat (split; [first [assumption | reflexivity]|]). lia. }
  destruct (run_call_cases c w Hw) as [[_ H] | [_ H]].
  { rewrite H in Hrun. injection Hrun as _ <-. auto. }
  destruct (sq_room w) eqn:Er.
  2:{ destruct H as (r' & _ & H). rewrite H in Hrun. injection Hrun as _ <-. auto. }
  destruct H as (r' & s & _ & H). rewrite H in Hrun. injection Hrun as _ <-.
  pose proof (proj1 (sq_room_bounded w Hb) Er) as Hlt.
  pose proof (u32_range (sq_tail (mem w) - sq_head (mem w))) as Hu.
  split; [apply reserve_ready, Hw|].
  split; [apply reserve_bounded; assumption|].
  destruct Hb as [_ _ Hp He _].
  unfold reserve. simpl. repeat (split; [reflexivity|]).
  rewrite u32_small by lia. lia.
Qed.

Lemma run_call_spares (c : PrepCall) (w w' : World) (r : Reply) (k j : Z) :
  sq_ready w -> sq_bounded w ->
  0 <= k <= 32 ->
  Ring.sqMask (ring w) = 2 ^ k - 1 ->
  Ring.sqEntries (ring w) = 2 ^ k ->
  0 <= j < Ring.sqPending (ring w) ->
  run_call c w = Ret r w' ->
  sqes (mem w') !! Z.to_nat (slot_at w (sq_tail (mem w) + j))
    = sqes (mem w) !! Z.to_nat (slot_at w (sq_tail (mem w) + j)) /\
  sq_array (mem w') !! Z.to_nat (slot_at w (sq_tail (mem w) + j))
    = sq_array (mem w) !! Z.to_nat (slot_at w (sq_tail (mem w) + j)).
Proof.
  intros Hw Hb Hk Hm He Hj Hrun.
  destruct (run_call_cases c w Hw) as [[_ H] | [_ H]].
  { rewrite H in Hrun. injection Hrun as _ <-. split; reflexivity. }
  destruct (sq_room w) eqn:Er.
  2:{ destruct H as (r' & _ & H). rewrite H in Hrun. injection Hrun as _ <-.
      split; reflexivity. }
  destruct H as (r' & s & _ & H). rewrite H in Hrun. injection Hrun as _ <-.
  pose proof (proj1 (sq_room_bounded w Hb) Er) as Hlt.
  pose proof (u32_range (sq_tail (mem w) - sq_head (mem w))) as Hu.
  assert (Hne : next_slot w <> slot_at w (sq_tail (mem w) + j)).
  { replace (next_slot w)
      with (slot_at w ((sq_tail (mem w) + j) + (Ring.sqPending (ring w) - j))).
    - apply (slot_at_distinct w k); [assumption | assumption | lia].
    - unfold slot_at, next_slot. do 2 f_equal. lia. }
  assert (Hn : Z.to_nat (next_slot w) <> Z.to_nat (slot_at w (sq_tail (mem w) + j))).
  { intros Heq. apply Hne. apply Z2Nat.inj; [| | exact Heq].
    - apply next_slot_bound. rewrite Hm.
      assert (0 < 2 ^ k) by (apply Z.pow_pos_nonneg; lia). lia.
    - unfold slot_at. apply Z.land_nonneg. left. apply u32_range. }
  unfold reserve. simpl.
  rewrite !list_lookup_insert_ne by exact Hn. split; reflexivity.
Qed.

Lemma slot_at_same (w w' : World) (t : Z) :
  Ring.sqMask (ring w') = Ring.sqMask (ring w) -> slot_at w' t = slot_at w t.
Proof. intros H. unfold slot_at. rewrite H. reflexivity. Qed.

(** Entries that are pending survive any sequence of reservation calls. *)
Lemma run_calls_spare (k : Z) (calls : list PrepCall) :
  0 <= k <= 32 ->
  forall (w w' : World) (rs : list Reply) (j : Z),
    sq_ready w -> sq_bounded w ->
    Ring.sqMask (ring w) = 2 ^ k - 1 ->
    Ring.sqEntries (ring w) = 2 ^ k ->
    0 <= j < Ring.sqPending (ring w) ->
    run_calls calls w = Ret rs w' ->
    sqes (mem w') !! Z.to_nat (slot_at w (sq_tail (mem w) + j))
      = sqes (mem w) !! Z.to_nat (slot_at w (sq_tail (mem w) + j)) /\
    sq_array (mem w') !! Z.to_nat (slot_at w (sq_tail (mem w) + j))
      = sq_array (mem w) !! Z.to_nat (slot_at w (sq_tail (mem w) + j)).
Proof.
  intros Hk. induction calls as [| c calls IH]; intros w w' rs j Hw Hb Hm He Hj Hrun.
  - injection Hrun as _ <-. split; reflexivity.
  - simpl in Hrun.
    apply bind_Ret in Hrun. destruct Hrun as (r & w1 & Hc & Hrun).
    apply bind_Ret in Hrun. destruct Hrun as (rs' & w2 & Hcs & Hrun).
    injection Hrun as _ <-.
    destruct (run_call_step c w w1 r Hw Hb Hc) as (Hw1 & Hb1 & Hm1 & He1 & Ht1 & _ & Hp1).
    destruct (run_call_spares c w w1 r k j Hw Hb Hk Hm He Hj Hc) as [A1 B1].
    destruct (IH w1 w2 rs' j Hw1 Hb1) as [A2 B2];
      [congruence | congruence | lia | exact Hcs |].
    rewrite (slot_at_same w w1), Ht1 in A2, B2 by exact Hm1.
    split; congruence.
Qed.

(** ** The entry a reservation leaves *)

(** The entry a reserving call leaves in its slot is decided by the call
    alone. *)
Lemma run_call_entry (c : PrepCall) :
  reserves c = true ->
  exists s, SQE.UserData s = call_userData c /\
    forall w, sq_ready w -> sq_room w = true ->
      exists r, run_call c w = Ret r (reserve s w).
Proof.
  intros Hc.
  destruct c; simpl in *;
    unfold PrepNop, PrepRead, PrepWrite, PrepReadFixed, PrepWriteFixed, PrepReadv,
      PrepWritev, PrepFsync, PrepTimeout, PrepTimeoutRemove, PrepLinkTimeout,
      PrepCancel, PrepAccept, PrepAcceptMultishot, PrepConnect, PrepSend, PrepRecv,
      PrepRecvMultishot, PrepClose, PrepShutdown, PrepSendmsg, PrepRecvmsg,
      PrepSocket, PrepPollAdd, PrepPollAddMultishot, PrepPollRemove, PrepOpenat,
      PrepStatx, PrepSplice;
    try match goal with
        | |- context [len ?b =? 0] =>
            destruct (len b =? 0); simpl in Hc; [discriminate Hc |]
        end.
  all: try (eexists; split;
            [| intros w Hw Er; rewrite (status_prep_room _ w Hw Er);
               eexists; reflexivity ]; reflexivity).
  exists SQE.zero. split; [reflexivity|].
  intros w Hw Er. unfold bind. rewrite (GetSQE_room w Hw Er).
  eexists; reflexivity.
Qed.

Lemma reserve_slot (s : SQE.t) (w : World) :
  sq_ready w ->
  sqes (mem (reserve s w)) !! Z.to_nat (next_slot w) = Some s /\
  sq_array (mem (reserve s w)) !! Z.to_nat (next_slot w) = Some (next_slot w).
Proof.
  intros Hw. pose proof (u32_next_slot w (ready_mask w Hw)) as Hu.
  reservation_facts w.
  unfold reserve. simpl. split.
  - apply list_lookup_insert_eq. exact Hin.
  - rewrite Hu. apply list_lookup_insert_eq. lia.
Qed.



(** ** Flags on the entry just reserved *)

Lemma alter_at {A : Type} (f : A -> A) (l : list A) (i : nat) (x : A) :
  l !! i = Some x -> alter f i l = <[i := f x]> l.
Proof.
  intros Hx. apply list_eq. intros j.
  destruct (decide (i = j)) as [<- | Hne].
  - rewrite list_lookup_alter_eq, Hx.
    rewrite list_lookup_insert_eq by (apply lookup_lt_Some in Hx; exact Hx).
    reflexivity.
  - rewrite list_lookup_alter_ne, list_lookup_insert_ne by exact Hne. reflexivity.
Qed.

Lemma SetSQEFlags_reserved (s : SQE.t) (flags : Z) (w : World) :
  sq_ready w -> 0 <= Ring.sqPending (ring w) < 2 ^ 32 - 1 ->
  SetSQEFlags flags (reserve s w)
    = Ret tt (with_flags (next_slot w) flags (reserve s w)).
Proof.
  intros Hw Hp. reservation_facts w.
  assert (Hgt : (u32 (Ring.sqPending (ring w) + 1) >? 0) = true).
  { rewrite u32_small by lia. apply Z.gtb_lt. lia. }
  assert (Hidx : u32 (sq_tail (mem w) + u32 (Ring.sqPending (ring w) + 1) - 1)
                 = u32 (sq_tail (mem w) + Ring.sqPending (ring w))).
  { rewrite (u32_small (Ring.sqPending (ring w) + 1)) by lia. f_equal. lia. }
  unfold SetSQEFlags, sqes_index, sqe_update, with_flags, reserve.
  unfold next_slot in *.
  open_world w. subst.
  repeat (go; rewrite ?Hgt, ?Hidx, ?Hlt, ?Hlt0).
  rewrite list_lookup_insert_eq by exact Hin. go.
  rewrite (alter_at _ _ _ s) by (apply list_lookup_insert_eq; exact Hin).
  reflexivity.
Qed.

(** X7.  After a reservation, [SetSQEFlags] ORs the flag bits into the
    entry that reservation filled, the one in the slot [getSQE] handed
    out, and into no other: every other entry, the index array, the tail,
    the pending counter and the trace stay as they were.  [SetSQELink] and
    [SetSQEAsync] do so with their one bit. *)
Theorem SetSQEFlags_marks_last_reservation :
  forall (c : PrepCall) (flags : Z) (w w1 : World) (r : Reply),
    sq_ready w -> sq_bounded w -> sq_room w = true -> reserves c = true ->
    run_call c w = Ret r w1 ->
    SetSQEFlags flags w1 = Ret tt (with_flags (next_slot w) flags w1) /\
    SetSQELink w1 = Ret tt (with_flags (next_slot w) IOSQE_IO_LINK w1) /\
    SetSQEAsync w1 = Ret tt (with_flags (next_slot w) IOSQE_ASYNC w1) /\
    (exists s,
       sqes (mem w1) !! Z.to_nat (next_slot w) = Some s /\
       sqes (mem (with_flags (next_slot w) flags w1)) !! Z.to_nat (next_slot w)
         = Some (SQE.set_Flags (Z.lor (SQE.Flags s) flags) s)) /\
    (forall i : nat,
       i <> Z.to_nat (next_slot w) ->
       sqes (mem (with_flags (next_slot w) flags w1)) !! i = sqes (mem w1) !! i).
Proof.
  intros c flags w w1 r Hw Hb Er Hc Hrun.
  destruct (run_call_entry c Hc) as (s & _ & Hs).
  destruct (Hs w Hw Er) as (r' & Hr'). rewrite Hr' in Hrun.
  injection Hrun as _ <-.
  pose proof (proj1 (sq_room_bounded w Hb) Er) as Hlt.
  pose proof (u32_range (sq_tail (mem w) - sq_head (mem w))) as Hu.
  assert (Hp : 0 <= Ring.sqPending (ring w) < 2 ^ 32 - 1).
  { destruct Hb as [_ _ Hp He _]. lia. }
  destruct (reserve_slot s w Hw) as [Hslot _].
  split; [apply SetSQEFlags_reserved; assumption|].
  split; [apply SetSQEFlags_reserved; assumption|].
  split; [apply SetSQEFlags_reserved; assumption|].
  split.
  - exists s. split; [exact Hslot|].
    unfold with_flags. simpl. rewrite list_lookup_alter_eq.
    unfold reserve in Hslot. simpl in Hslot. rewrite Hslot. reflexivity.
  - intros i Hi. unfold with_flags. simpl.
    apply list_lookup_alter_ne. congruence.
Qed.

Lemma SetSQEFlags_marks_last_reservation_witness :
  let w1 := after (run_call (CallNop 1)) ring4 in
  SetSQEFlags 5 w1 = Ret tt (with_flags (next_slot ring4) 5 w1) /\
  SetSQELink w1 = Ret tt (with_flags (next_slot ring4) IOSQE_IO_LINK w1) /\
  SetSQEAsync w1 = Ret tt (with_flags (next_slot ring4) IOSQE_ASYNC w1) /\
  (exists s,
     sqes (mem w1) !! Z.to_nat (next_slot ring4) = Some s /\
     sqes (mem (with_flags (next_slot ring4) 5 w1)) !! Z.to_nat (next_slot ring4)
       = Some (SQE.set_Flags (Z.lor (SQE.Flags s) 5) s)) /\
  (forall i : nat,
     i <> Z.to_nat (next_slot ring4) ->
     sqes (mem (with_flags (next_slot ring4) 5 w1)) !! i = sqes (mem w1) !! i).
Proof.
  intros w1.
  apply (SetSQEFlags_marks_last_reservation (CallNop 1) 5 ring4 w1 (Status None)).
  - split; by_eval.
  - split; by_eval.
  - by_eval.
  - by_eval.
  - by_eval.
Defined.

(** ** The order of the queue *)

(** X8.  Reserved entries queue up in call order.  On a ring whose
    capacity is a power of two, with room for all of them, after a
    sequence of reserving calls the entry of the [j]-th call is in the
    slot of queue position tail + pending + [j]: it carries that call's
    token and the index array names the slot at its own position.  The
    entries that were pending before the calls are as they were. *)
Theorem reserved_entries_queue_in_call_order :
  forall (calls : list PrepCall) (w w' : World) (rs : list Reply) (k : Z),
    sq_ready w -> sq_bounded w ->
    0 <= k <= 32 ->
    Ring.sqMask (ring w) = 2 ^ k - 1 ->
    Ring.sqEntries (ring w) = 2 ^ k ->
    Forall (fun c => reserves c = true) calls ->
    u32 (sq_tail (mem w) - sq_head (mem w)) + Ring.sqPending (ring w)
      + Z.of_nat (length calls) <= Ring.sqEntries (ring w) ->
    run_calls calls w = Ret rs w' ->
    (forall (j : nat) (c : PrepCall),
       calls !! j = Some c ->
       let slot :=
         slot_at w (sq_tail (mem w) + Ring.sqPending (ring w) + Z.of_nat j) in
       exists s,
         sqes (mem w') !! Z.to_nat slot = Some s /\
         SQE.UserData s = call_userData c /\
         sq_array (mem w') !! Z.to_nat slot = Some slot) /\
    (forall j : Z,
       0 <= j < Ring.sqPending (ring w) ->
       sqes (mem w') !! Z.to_nat (slot_at w (sq_tail (mem w) + j))
         = sqes (mem w) !! Z.to_nat (slot_at w (sq_tail (mem w) + j)) /\
       sq_array (mem w') !! Z.to_nat (slot_at w (sq_tail (mem w) + j))
         = sq_array (mem w) !! Z.to_nat (slot_at w (sq_tail (mem w) + j))).
Proof.
  intros calls w w' rs k Hw Hb Hk Hm He Hres Hsum Hrun.
  split; [| intros j Hj; exact (run_calls_spare k calls Hk w w' rs j Hw Hb Hm He Hj Hrun)].
  revert w w' rs Hw Hb Hm He Hres Hsum Hrun.
  induction calls as [| c calls IH]; intros w w' rs Hw Hb Hm He Hres Hsum Hrun j c' Hj.
  { destruct j; discriminate Hj. }
  apply Forall_cons in Hres. destruct Hres as [Hc Hres].
  simpl length in Hsum.
  assert (Er : sq_room w = true) by (apply (sq_room_bounded w Hb); lia).
  destruct (run_call_entry c Hc) as (s & Hu & Hs).
  destruct (Hs w Hw Er) as (r & Hrc).
  simpl in Hrun.
  apply bind_Ret in Hrun. destruct Hrun as (r1 & w1 & Hc1 & Hrun).
  rewrite Hrc in Hc1. injection Hc1 as <- <-.
  apply bind_Ret in Hrun. destruct Hrun as (rs' & w2 & Hcs & Hrun).
  injection Hrun as _ <-.
  destruct (run_call_step c w _ r Hw Hb Hrc) as (Hw1 & Hb1 & Hm1 & He1 & Ht1 & Hh1 & _).
  pose proof (u32_range (sq_tail (mem w) - sq_head (mem w))) as Hr.
  assert (Hp1 : Ring.sqPending (ring (reserve s w)) = Ring.sqPending (ring w) + 1).
  { destruct Hb as [_ _ Hp Hen _]. unfold reserve. simpl. apply u32_small. lia. }
  destruct j as [| j]; cbv zeta.
  - injection Hj as <-.
    replace (slot_at w (sq_tail (mem w) + Ring.sqPending (ring w) + Z.of_nat 0))
      with (next_slot w)
      by (unfold slot_at, next_slot; do 2 f_equal; simpl; lia).
    destruct (reserve_slot s w Hw) as [A B].
    destruct (run_calls_spare k calls Hk (reserve s w) w2 rs' (Ring.sqPending (ring w))
                Hw1 Hb1) as [A2 B2];
      [congruence | congruence | destruct Hb; lia | exact Hcs |].
    replace (slot_at (reserve s w)
               (sq_tail (mem (reserve s w)) + Ring.sqPending (ring w)))
      with (next_slot w) in A2, B2 by reflexivity.
    exists s. rewrite A2, B2. auto.
  - simpl in Hj.
    destruct (IH (reserve s w) w2 rs' Hw1 Hb1) with (j := j) (c := c') as (s' & A & B & C);
      [congruence | congruence | exact Hres | | exact Hcs | exact Hj |].
    + rewrite Hp1, Ht1, Hh1, He1. lia.
    + cbv zeta in A, C. rewrite Hp1, Ht1, (slot_at_same w (reserve s w)) in A, C by exact Hm1.
      replace (sq_tail (mem w) + (Ring.sqPending (ring w) + 1) + Z.of_nat j)
        with (sq_tail (mem w) + Ring.sqPending (ring w) + Z.of_nat (S j)) in A, C by lia.
      exists s'. auto.
Qed.

Lemma reserved_entries_queue_in_call_order_witness :
  let calls := [CallNop 11; CallRead 5 (mkSlice 4096 [0; 0]) 0 22; CallClose 5 33] in
  let w := after (PrepNop 1 ;; Submit (nop_kernel 0) ;; PrepNop 2) ring4 in
  let w' := after (run_calls calls) w in
  (forall (j : nat) (c : PrepCall),
     calls !! j = Some c ->
     let slot :=
       slot_at w (sq_tail (mem w) + Ring.sqPending (ring w) + Z.of_nat j) in
     exists s,
       sqes (mem w') !! Z.to_nat slot = Some s /\
       SQE.UserData s = call_userData c /\
       sq_array (mem w') !! Z.to_nat slot = Some slot) /\
  (forall j : Z,
     0 <= j < Ring.sqPending (ring w) ->
     sqes (mem w') !! Z.to_nat (slot_at w (sq_tail (mem w) + j))
       = sqes (mem w) !! Z.to_nat (slot_at w (sq_tail (mem w) + j)) /\
     sq_array (mem w') !! Z.to_nat (slot_at w (sq_tail (mem w) + j))
       = sq_array (mem w) !! Z.to_nat (slot_at w (sq_tail (mem w) + j))).
Proof.
  intros calls w w'.
  apply (reserved_entries_queue_in_call_order calls w w'
           [Status None; Status None; Status None] 2).
  - split; by_eval.
  - split; by_eval.
  - lia.
  - by_eval.
  - by_eval.
  - repeat constructor.
  - by_eval.
  - by_eval.
Defined.

(** ** The invariant across [Submit] *)

Lemma Submit_shape (K : Kernel) (w w' : World) (res : Z * option Error) :
  Submit K w = Ret res w' ->
  Ring.sqEntries (ring w') = Ring.sqEntries (ring w) /\
  ((Ring.sqPending (ring w') = Ring.sqPending (ring w) /\
    sq_tail (mem w') = sq_tail (mem w))
   \/
   (Ring.sqPending (ring w') = 0 /\
    sq_tail (mem w') = u32 (sq_tail (mem w) + Ring.sqPending (ring w)))).
Proof.
  unfold Submit. open_world w.
  branches; intros H; try discriminate H; injection H as _ <-; simpl; auto.
Qed.

(** X9.  [Submit] keeps the ring within its capacity.  If what is
    published and not consumed plus what is pending fits the capacity
    before [Submit], it does so when [Submit] returns, provided the kernel
    has moved the submission head only forward over published entries. *)
Theorem Submit_keeps_within_capacity :
  forall (K : Kernel) (w w' : World) (res : Z * option Error),
    sq_bounded w ->
    Submit K w = Ret res w' ->
    0 <= sq_head (mem w') < 2 ^ 32 ->
    u32 (sq_tail (mem w') - sq_head (mem w'))
      <= u32 (sq_tail (mem w') - sq_head (mem w)) ->
    sq_bounded w'.
Proof.
  intros K w w' res [Hh Ht Hp He Hs] Hrun Hh' Hle.
  destruct (Submit_shape K w w' res Hrun) as (Hen & [[Hpe Hta] | [Hpe Hta]]).
  - split; rewrite ?Hen, ?Hpe, ?Hta in *; try assumption. lia.
  - pose proof (u32_range (sq_tail (mem w) - sq_head (mem w))) as Hu.
    split; rewrite ?Hen, ?Hpe; try assumption.
    + rewrite Hta. apply u32_range.
    + lia.
    + rewrite Hta in Hle |- *.
      rewrite (u32_sub_add _ _ (sq_head (mem w))) in Hle.
      rewrite (u32_small (u32 (sq_tail (mem w) - sq_head (mem w)) + _)) in Hle by lia.
      lia.
Qed.

Lemma Submit_keeps_within_capacity_witness :
  let K := nop_kernel 0 in
  let w := after (run_calls [CallNop 1; CallNop 2]) ring4 in
  sq_bounded (after (Submit K) w).
Proof.
  intros K w.
  apply (Submit_keeps_within_capacity K w (after (Submit K) w) (2, None)).
  - split; by_eval.
  - by_eval.
  - split; by_eval.
  - by_eval.
Defined.

(** ** Use after [Close] *)

Lemma prep_unmapped (fs : list (SQE.t -> SQE.t)) (w : World) :
  Ring.sqLock (ring w) = false -> in_sq w = Abort Segv ->
  status (prep fs) w = Abort Segv.
Proof.
  unfold status, prep, getSQE, in_sq. open_world w. intros ->.
  destruct sqRing as [[ | | ] |]; go; split_flags;
    intros H; try discriminate H; reflexivity.
Qed.

(** X10.  The calls that do not look at the closed flag fault after
    [Close].  On a ring [New] returned and [Close] has closed, every
    reserving call ([GetSQE] and each builder given something to do) and
    every call of the completion side stops at its first load from the
    rings, which are no longer mapped; so do [SQSpace], [CQReady] and
    [CQOverflow]. *)
Theorem use_after_Close_faults :
  forall (K : Kernel) (entries : Z) (opts : list Option) (w0 w w' : World)
         (err : option Error),
    New K entries opts w0 = Ret None w ->
    Close K w = Ret err w' ->
    (forall c : PrepCall, reserves c = true -> run_call c w' = Abort Segv) /\
    PeekCQE w' = Abort Segv /\
    SeenCQE w' = Abort Segv /\
    (forall n : Z, SeenCQEs n w' = Abort Segv) /\
    DrainCQEs w' = Abort Segv /\
    (forall (fuel : nat) (fn : Z -> Z -> Z -> bool), ForEachCQE fuel fn w' = Abort Segv) /\
    SQSpace w' = Abort Segv /\
    CQReady w' = Abort Segv /\
    CQOverflow w' = Abort Segv.
Proof.
  intros K entries opts w0 w w' err HN.
  destruct (New_success K entries opts w0 w HN)
    as (fd & p & image & _ & Hr & Hm & _).
  destruct w as [r m tr t]. simpl in *. subst r m.
  unfold Close. go. unfold singleMmap.
  destruct (Z.land (Params.Features p) IORING_FEAT_SINGLE_MMAP =? 0); go;
    intros H; injection H as _ <-.
  all: split;
    [ intros c Hc;
      destruct c; simpl in Hc |- *;
      unfold PrepNop, PrepRead, PrepWrite, PrepReadFixed, PrepWriteFixed, PrepReadv,
        PrepWritev, PrepFsync, PrepTimeout, PrepTimeoutRemove, PrepLinkTimeout,
        PrepCancel, PrepAccept, PrepAcceptMultishot, PrepConnect, PrepSend, PrepRecv,
        PrepRecvMultishot, PrepClose, PrepShutdown, PrepSendmsg, PrepRecvmsg,
        PrepSocket, PrepPollAdd, PrepPollAddMultishot, PrepPollRemove, PrepOpenat,
        PrepStatx, PrepSplice;
      try match goal with
          | |- context [len ?b =? 0] =>
              destruct (len b =? 0); simpl in Hc; [discriminate Hc |]
          end;
      first [ apply prep_unmapped; reflexivity | reflexivity ]
    | repeat split; reflexivity ].
Qed.

Lemma use_after_Close_faults_witness :
  let K := nop_kernel 0 in
  let w' := after (Close K) ring4 in
  (forall c : PrepCall, reserves c = true -> run_call c w' = Abort Segv) /\
  PeekCQE w' = Abort Segv /\
  SeenCQE w' = Abort Segv /\
  (forall n : Z, SeenCQEs n w' = Abort Segv) /\
  DrainCQEs w' = Abort Segv /\
  (forall (fuel : nat) (fn : Z -> Z -> Z -> bool), ForEachCQE fuel fn w' = Abort Segv) /\
  SQSpace w' = Abort Segv /\
  CQReady w' = Abort Segv /\
  CQOverflow w' = Abort Segv.
Proof.
  intros K w'.
  apply (use_after_Close_faults K 4 [] boot ring4 w' None).
  - by_eval.
  - by_eval.
Defined.

(** ** What [Submit] and [SubmitAndWait] ask of the kernel *)

(** X11.  Outside the case in which the kernel thread is polling and
    awake, a [Submit] with entries pending makes exactly one system call:
    an [io_uring_enter] on the ring descriptor for the pending count, with
    [min_complete] 0, no timeout argument, and as flags
    [IORING_ENTER_SQ_WAKEUP] in kernel-polled mode and 0 otherwise.  When
    the call fails [Submit] reports 0 submitted with the error. *)
Theorem Submit_enters_once_for_pending :
  forall (K : Kernel) (w : World),
    Ring.closed (ring w) = false ->
    Ring.sqLock (ring w) = false ->
    sq_mapped w ->
    Ring.sqPending (ring w) <> 0 ->
    ~ (sqpoll_mode w /\ wakeup_clear w) ->
    exists n err w',
      Submit K w = Ret (n, err) w' /\
      trace w' = trace w ++
        [EvEnter (Ring.fd (ring w)) (Ring.sqPending (ring w)) 0
           (if Z.land (Params.Flags (Ring.params (ring w))) IORING_SETUP_SQPOLL =? 0
            then 0 else IORING_ENTER_SQ_WAKEUP)
           None] /\
      (err <> None -> n = 0).
Proof.
  intros K w Hc Hl [Hs Hm] Hp Hq.
  unfold sqpoll_mode, wakeup_clear in Hq.
  apply Z.eqb_neq in Hp.
  open_world w. subst.
  unfold Submit. repeat (go; rewrite ?Hp).
  destruct (Z.land _ IORING_SETUP_SQPOLL =? 0) eqn:Eq; repeat (go; rewrite ?Eq).
  - match goal with |- context [er_ret ?r] => destruct (er_ret r) end; go;
      eexists _, _, _;
      (split; [reflexivity|]); (split; [reflexivity|]); congruence.
  - destruct (Z.land _ IORING_SQ_NEED_WAKEUP =? 0) eqn:Ew; repeat (go; rewrite ?Eq, ?Ew).
    + exfalso. apply Hq. apply Z.eqb_neq in Eq. apply Z.eqb_eq in Ew. auto.
    + match goal with |- context [er_ret ?r] => destruct (er_ret r) end; go;
        eexists _, _, _;
        (split; [reflexivity|]); (split; [reflexivity|]); congruence.
Qed.

Lemma Submit_enters_once_for_pending_witness :
  let w := after (run_calls [CallNop 1; CallNop 2]) ring4 in
  exists n err w',
    Submit (stalled_kernel 0) w = Ret (n, err) w' /\
    trace w' = trace w ++
      [EvEnter (Ring.fd (ring w)) (Ring.sqPending (ring w)) 0
         (if Z.land (Params.Flags (Ring.params (ring w))) IORING_SETUP_SQPOLL =? 0
          then 0 else IORING_ENTER_SQ_WAKEUP)
         None] /\
    (err <> None -> n = 0).
Proof.
  intros w.
  apply (Submit_enters_once_for_pending (stalled_kernel 0) w).
  - by_eval.
  - by_eval.
  - split; by_eval.
  - by_eval.
  - intros [H _]. apply H. by_eval.
Defined.

(** X12.  A [Submit] that follows a [Submit] on an open ring, with no
    reservation in between, finds nothing pending: it returns 0 and nil,
    makes no system call and leaves the world exactly as it was, whatever
    the first call returned and whatever the kernel did during it. *)
Theorem Submit_after_Submit_is_free :
  forall (K K' : Kernel) (w w' : World) (res : Z * option Error),
    Ring.closed (ring w) = false ->
    Submit K w = Ret res w' ->
    Submit K' w' = Ret (0, None) w'.
Proof.
  intros K K' w w' res Hc. open_world w. subst.
  unfold Submit at 1. go.
  destruct sqLock; go; [discriminate|].
  destruct (Z.eqb_spec sqPending 0) as [-> | Hp]; go.
  - intros H. injection H as _ <-. reflexivity.
  - branches; intros H; try discriminate H; injection H as _ <-; reflexivity.
Qed.

Lemma Submit_after_Submit_is_free_witness :
  let w := after (run_calls [CallNop 1; CallNop 2]) ring4 in
  let w' := after (Submit (nop_kernel 0)) w in
  Submit (stalled_kernel 0) w' = Ret (0, None) w'.
Proof.
  intros w w'.
  apply (Submit_after_Submit_is_free (nop_kernel 0) (stalled_kernel 0) w w' (2, None)).
  - by_eval.
  - by_eval.
Defined.

(** X13.  [SubmitAndWait] on an open ring publishes what is pending and
    then always enters the kernel, exactly once, also with nothing
    pending and also in kernel-polled mode: for the count that was
    pending, with [min_complete] the argument [n], no timeout argument
    and [IORING_ENTER_GETEVENTS] among the flags ([IORING_ENTER_SQ_WAKEUP]
    beside it when the polling thread sleeps).  On an error it reports 0. *)
Theorem SubmitAndWait_publishes_and_enters_once :
  forall (K : Kernel) (n : Z) (w : World),
    Ring.closed (ring w) = false ->
    Ring.sqLock (ring w) = false ->
    sq_mapped w ->
    0 <= sq_tail (mem w) < 2 ^ 32 ->
    0 <= Ring.sqPending (ring w) ->
    exists res err w',
      SubmitAndWait K n w = Ret (res, err) w' /\
      published w w' /\
      trace w' = trace w ++
        [EvEnter (Ring.fd (ring w)) (Ring.sqPending (ring w)) n
           (if negb (Z.land (Params.Flags (Ring.params (ring w))) IORING_SETUP_SQPOLL =? 0)
               && negb (Z.land (sq_flags (mem w)) IORING_SQ_NEED_WAKEUP =? 0)
            then Z.lor IORING_ENTER_GETEVENTS IORING_ENTER_SQ_WAKEUP
            else IORING_ENTER_GETEVENTS)
           None] /\
      (err <> None -> res = 0).
Proof.
  intros K n w Hc Hl [Hs Hm] Ht Hp. unfold published.
  open_world w. subst.
  unfold SubmitAndWait. go.
  destruct (Z.gtb_spec sqPending 0) as [Hgt | Hle]; go.
  - destruct (Z.land _ IORING_SETUP_SQPOLL =? 0) eqn:Eq; repeat (go; rewrite ?Eq);
      [| destruct (Z.land _ IORING_SQ_NEED_WAKEUP =? 0) eqn:Ew;
         repeat (go; rewrite ?Eq, ?Ew) ];
      match goal with |- context [er_ret ?r] => destruct (er_ret r) end; go;
      eexists _, _, _;
      (split; [reflexivity|]); simpl;
      (split; [split; reflexivity|]); (split; [reflexivity|]); congruence.
  - assert (sqPending = 0) by lia. subst sqPending.
    destruct (Z.land _ IORING_SETUP_SQPOLL =? 0) eqn:Eq; repeat (go; rewrite ?Eq);
      [| destruct (Z.land _ IORING_SQ_NEED_WAKEUP =? 0) eqn:Ew;
         repeat (go; rewrite ?Eq, ?Ew) ];
      match goal with |- context [er_ret ?r] => destruct (er_ret r) end; go;
      eexists _, _, _;
      (split; [reflexivity|]); simpl;
      (split; [split; [reflexivity | rewrite Z.add_0_r, u32_small by lia; reflexivity]|]);
      (split; [reflexivity|]); congruence.
Qed.

Lemma SubmitAndWait_publishes_and_enters_once_witness :
  exists res err w',
    SubmitAndWait (nop_kernel 0) 1 ring4_sqpoll = Ret (res, err) w' /\
    published ring4_sqpoll w' /\
    trace w' = trace ring4_sqpoll ++
      [EvEnter (Ring.fd (ring ring4_sqpoll)) (Ring.sqPending (ring ring4_sqpoll)) 1
         (if negb (Z.land (Params.Flags (Ring.params (ring ring4_sqpoll)))
                     IORING_SETUP_SQPOLL =? 0)
             && negb (Z.land (sq_flags (mem ring4_sqpoll)) IORING_SQ_NEED_WAKEUP =? 0)
          then Z.lor IORING_ENTER_GETEVENTS IORING_ENTER_SQ_WAKEUP
          else IORING_ENTER_GETEVENTS)
         None] /\
    (err <> None -> res = 0).
Proof.
  apply (SubmitAndWait_publishes_and_enters_once (nop_kernel 0) 1 ring4_sqpoll).
  - by_eval.
  - by_eval.
  - split; by_eval.
  - split; by_eval.
  - by_eval.
Defined.

(** ** The counters a caller can read *)

(** X14.  [SQSpace] counts the entries the kernel has not consumed and
    ignores the ones reserved and not yet submitted, which [SQReady]
    counts; on a ring within its capacity the next reservation succeeds
    exactly when [SQReady] is below [SQSpace]. *)
Theorem reservation_succeeds_iff_ready_below_space :
  forall (w : World),
    sq_mapped w -> sq_bounded w ->
    exists space ready,
      SQSpace w = Ret space w /\
      SQReady w = Ret ready w /\
      space = Ring.sqEntries (ring w) - u32 (sq_tail (mem w) - sq_head (mem w)) /\
      ready = Ring.sqPending (ring w) /\
      (sq_room w = true <-> ready < space).
Proof.
  intros w [Hs Hm] Hb.
  pose proof (sq_room_bounded w Hb) as Hroom.
  destruct Hb as [Hh Ht Hp He Hsum].
  pose proof (u32_range (sq_tail (mem w) - sq_head (mem w))) as Hu.
  eexists _, _. split; [| split; [| split; [reflexivity | split; [reflexivity|]]]].
  - unfold SQSpace. open_world w. subst. go.
    rewrite (u32_small (sqEntries - _)) by lia. reflexivity.
  - unfold SQReady. open_world w. reflexivity.
  - rewrite Hroom. lia.
Qed.

Lemma reservation_succeeds_iff_ready_below_space_witness :
  let w := after (run_calls [CallNop 1; CallNop 2; CallNop 3]) ring4 in
  exists space ready,
    SQSpace w = Ret space w /\
    SQReady w = Ret ready w /\
    space = Ring.sqEntries (ring w) - u32 (sq_tail (mem w) - sq_head (mem w)) /\
    ready = Ring.sqPending (ring w) /\
    (sq_room w = true <-> ready < space).
Proof.
  intros w.
  apply (reservation_succeeds_iff_ready_below_space w).
  - split; by_eval.
  - split; by_eval.
Defined.

(** ** The completion side *)

Lemma u32_add_add (h a b : Z) : u32 (u32 (h + a) + b) = u32 (h + (a + b)).
Proof. unfold u32. rewrite Zplus_mod_idemp_l. f_equal. lia. Qed.

Lemma u32_sub_succ (t h : Z) :
  0 <= h < 2 ^ 32 -> 0 <= t < 2 ^ 32 -> h <> t ->
  u32 (t - u32 (h + 1)) = u32 (t - h) - 1.
Proof.
  intros Hh Ht Hne.
  assert (Hd : 1 <= u32 (t - h)).
  { pose proof (u32_range (t - h)) as Hr.
    destruct (Z.eq_dec (u32 (t - h)) 0) as [E | E]; [| lia].
    exfalso. apply Hne. unfold u32 in E.
    destruct (Z_lt_le_dec t h).
    - rewrite <- (Z_mod_plus_full _ 1), Z.mod_small in E by lia. lia.
    - rewrite Z.mod_small in E by lia. lia. }
  pose proof (u32_range (t - h)) as Hr.
  transitivity (u32 (u32 (t - h) - 1)).
  - unfold u32. rewrite Zminus_mod_idemp_r, Zminus_mod_idemp_l. f_equal. lia.
  - apply u32_small. lia.
Qed.

Lemma u32_diff_zero (t h : Z) :
  0 <= h < 2 ^ 32 -> 0 <= t < 2 ^ 32 -> u32 (t - h) = 0 -> t = h.
Proof.
  intros Hh Ht E. unfold u32 in E.
  destruct (Z_lt_le_dec t h).
  - rewrite <- (Z_mod_plus_full _ 1), Z.mod_small in E by lia. lia.
  - rewrite Z.mod_small in E by lia. lia.
Qed.

(** X15.  Marking completions as seen adds up: [SeenCQEs a] and then
    [SeenCQEs b] is [SeenCQEs (a + b)], across the wrap of the 32-bit
    head as well, and [SeenCQE] is [SeenCQEs 1]; on every world, a ring
    whose completion ring is not mapped included. *)
Theorem SeenCQEs_add_up :
  forall (a b : Z) (w : World),
    (SeenCQEs a ;; SeenCQEs b) w = SeenCQEs (a + b) w /\
    (SeenCQE ;; SeenCQEs a) w = SeenCQEs (1 + a) w /\
    SeenCQE w = SeenCQEs 1 w.
Proof.
  intros a b w. unfold SeenCQE, SeenCQEs. open_world w.
  destruct cqRing as [[ | | ] |]; go; split_flags;
    rewrite ?u32_add_add; repeat split; reflexivity.
Qed.

Ltac open_cq w H :=
  let g := fresh "g" in
  let Hg := fresh "Hg" in let Hmap := fresh "Hmap" in
  let Hm := fresh "Hm" in let He := fresh "He" in let Hlen := fresh "Hlen" in
  let Hh := fresh "Hh" in let Ht := fresh "Ht" in
  destruct H as [(g & Hg & Hmap) Hm He Hlen Hh Ht];
  open_world w; subst;
  destruct g; simpl in Hmap; subst.

(** X16.  [SeenCQE] does not look at the tail.  Called on an empty
    completion queue it still advances the head, and the ring then
    reports 2^32 - 1 completions ready. *)
Theorem SeenCQE_on_empty_queue_is_unchecked :
  forall (w : World),
    cq_ready w -> cq_empty w ->
    exists w',
      SeenCQE w = Ret tt w' /\
      w' = with_cq_head (u32 (cq_head (mem w) + 1)) w /\
      CQReady w' = Ret (2 ^ 32 - 1) w'.
Proof.
  intros w Hw Hemp. unfold cq_empty in Hemp.
  assert (Hn : u32 (cq_tail (mem w) - u32 (cq_head (mem w) + 1)) = 2 ^ 32 - 1).
  { rewrite <- Hemp. destruct Hw as [_ _ _ _ Hh _].
    destruct (Z.eq_dec (cq_head (mem w)) (2 ^ 32 - 1)) as [E | E].
    - rewrite E. reflexivity.
    - rewrite (u32_small (_ + 1)) by lia.
      replace (cq_head (mem w) - (cq_head (mem w) + 1)) with (-1) by lia.
      reflexivity. }
  eexists. split; [| split; [reflexivity|]].
  - unfold SeenCQE, with_cq_head. open_cq w Hw; reflexivity.
  - unfold CQReady, with_cq_head. open_cq w Hw; go; rewrite Hn; reflexivity.
Qed.

Lemma SeenCQE_on_empty_queue_is_unchecked_witness :
  exists w',
    SeenCQE ring4 = Ret tt w' /\
    w' = with_cq_head (u32 (cq_head (mem ring4) + 1)) ring4 /\
    CQReady w' = Ret (2 ^ 32 - 1) w'.
Proof.
  apply (SeenCQE_on_empty_queue_is_unchecked ring4).
  - split; try by_eval. exists RegCQ. split; by_eval.
  - by_eval.
Defined.

(** X17.  [DrainCQEs] returns the number of completions [CQReady]
    reports and moves the head to the tail: the queue is empty
    afterwards, [PeekCQE] finds nothing, and nothing else has changed. *)
Theorem DrainCQEs_empties_queue :
  forall (w : World),
    cq_ready w ->
    let n := u32 (cq_tail (mem w) - cq_head (mem w)) in
    let w' := with_cq_head (cq_tail (mem w)) w in
    CQReady w = Ret n w /\
    DrainCQEs w = Ret n w' /\
    cq_empty w' /\
    CQReady w' = Ret 0 w' /\
    PeekCQE w' = Ret (0, 0, 0, false) w'.
Proof.
  intros w Hw n w'. subst n w'.
  pose proof (u32_diff_zero _ _ (cq_ready_head w Hw) (cq_ready_tail w Hw)) as Hz.
  pose proof (u32_range (cq_tail (mem w) - cq_head (mem w))) as Hr.
  unfold CQReady, DrainCQEs, PeekCQE, cq_empty, with_cq_head.
  open_cq w Hw; go;
    (split; [reflexivity|]);
    (split; [match goal with
             | |- context [?x >? 0] => destruct (Z.gtb_spec x 0) as [Hgt | Hle]
             end; go;
             [reflexivity | rewrite (Hz ltac:(lia)); reflexivity]|]);
    (split; [reflexivity|]);
    rewrite Z.sub_diag, Z.eqb_refl; split; reflexivity.
Qed.

Lemma DrainCQEs_empties_queue_witness :
  let w := ring4_three_done in
  let n := u32 (cq_tail (mem w) - cq_head (mem w)) in
  let w' := with_cq_head (cq_tail (mem w)) w in
  CQReady w = Ret n w /\
  DrainCQEs w = Ret n w' /\
  cq_empty w' /\
  CQReady w' = Ret 0 w' /\
  PeekCQE w' = Ret (0, 0, 0, false) w'.
Proof.
  intros w.
  apply (DrainCQEs_empties_queue w).
  split; try by_eval. exists RegCQ. split; by_eval.
Defined.

(** The loop of [ForEachCQE] reads only; it stops [c' - count] entries
    after [head], and no further than the tail. *)
Lemma ForEachCQE_loop_spec (fuel : nat) (fn : Z -> Z -> Z -> bool) :
  forall (head tail count : Z) (w w' : World) (h' c' : Z),
    0 <= head < 2 ^ 32 -> 0 <= tail < 2 ^ 32 ->
    ForEachCQE_loop fuel fn head tail count w = Ret (h', c') w' ->
    w' = w /\ h' = u32 (head + (c' - count)) /\
    0 <= c' - count <= u32 (tail - head).
Proof.
  induction fuel as [| fuel IH]; intros head tail count w w' h' c' Hh Ht.
  - simpl. destruct (Z.eqb_spec head tail) as [-> | Hne]; [| discriminate].
    intros H. injection H as <- <- <-.
    rewrite Z.sub_diag, Z.add_0_r, u32_small by lia.
    pose proof (u32_range (tail - tail)). repeat split; lia.
  - simpl. destruct (Z.eqb_spec head tail) as [-> | Hne].
    + intros H. injection H as <- <- <-.
      rewrite Z.sub_diag, Z.add_0_r, u32_small by lia.
      pose proof (u32_range (tail - tail)). repeat split; lia.
    + unfold bind at 1. unfold field at 1. go.
      destruct (cqes_load (Z.land head (Ring.cqMask (ring w))) w) as [c w1 |] eqn:Hl;
        [| discriminate].
      assert (w1 = w).
      { revert Hl. unfold cqes_load. open_world w.
        branches; intros H; try discriminate H; injection H; auto. }
      subst w1.
      pose proof (u32_sub_succ tail head Hh Ht Hne) as Hs.
      pose proof (u32_range (tail - u32 (head + 1))) as Hr.
      destruct (fn _ _ _); simpl.
      * intros H. apply IH in H; [| apply u32_range | exact Ht].
        destruct H as (-> & -> & Hc). split; [reflexivity|]. split.
        -- rewrite u32_add_add. f_equal. lia.
        -- lia.
      * intros H. injection H as <- <- <-.
        rewrite Z.sub_diag, Z.add_0_r, u32_small by lia.
        pose proof (u32_range (tail - head)). repeat split; lia.
Qed.

Lemma u32_sub_add_le (t h n : Z) :
  0 <= n <= u32 (t - h) -> u32 (t - u32 (h + n)) = u32 (t - h) - n.
Proof.
  intros Hn. pose proof (u32_range (t - h)) as Hr.
  transitivity (u32 (u32 (t - h) - n)).
  - unfold u32. rewrite Zminus_mod_idemp_r, Zminus_mod_idemp_l. f_equal. lia.
  - apply u32_small. lia.
Qed.

(** X18.  [ForEachCQE] consumes exactly what it counts.  When it returns
    [n], [n] is at most the number of completions that were ready, the
    head has advanced by [n] (in [uint32]), [CQReady] has gone down by
    [n], and nothing else has changed. *)
Theorem ForEachCQE_consumes_what_it_counts :
  forall (fuel : nat) (fn : Z -> Z -> Z -> bool) (w w' : World) (n : Z),
    0 <= cq_head (mem w) < 2 ^ 32 ->
    0 <= cq_tail (mem w) < 2 ^ 32 ->
    ForEachCQE fuel fn w = Ret n w' ->
    0 <= n <= u32 (cq_tail (mem w) - cq_head (mem w)) /\
    w' = with_cq_head (u32 (cq_head (mem w) + n)) w /\
    CQReady w' = Ret (u32 (cq_tail (mem w) - cq_head (mem w)) - n) w'.
Proof.
  intros fuel fn w w' n Hh Ht. unfold ForEachCQE.
  unfold bind at 1.
  destruct (load_cqHead w) as [h w1 |] eqn:H1; [| discriminate].
  assert (E1 : w1 = w /\ h = cq_head (mem w) /\ in_cq w = Ret tt w).
  { revert H1. unfold load_cqHead. open_world w.
    branches; intros H; try discriminate H; injection H as <- <-; auto. }
  destruct E1 as (-> & -> & Hin).
  unfold bind at 1.
  assert (H2 : load_cqTail w = Ret (cq_tail (mem w)) w).
  { unfold load_cqTail, bind. rewrite Hin. reflexivity. }
  rewrite H2. unfold bind at 1.
  destruct (ForEachCQE_loop fuel fn _ _ 0 w) as [[h' c'] w1 |] eqn:Hloop;
    [| discriminate].
  apply ForEachCQE_loop_spec in Hloop; [| assumption | assumption].
  destruct Hloop as (-> & -> & Hc). rewrite Z.sub_0_r in *.
  assert (Hready : forall v, CQReady (with_cq_head v w)
            = Ret (u32 (cq_tail (mem w) - v)) (with_cq_head v w)).
  { intros v. revert Hin. unfold CQReady, with_cq_head. open_world w.
    destruct cqRing as [[ | | ] |]; go; try discriminate; split_flags;
      intros H; try discriminate H; reflexivity. }
  destruct (Z.gtb_spec c' 0) as [Hgt | Hle].
  - assert (Hst : store_cqHead (u32 (cq_head (mem w) + c')) w
              = Ret tt (with_cq_head (u32 (cq_head (mem w) + c')) w)).
    { unfold store_cqHead, bind. rewrite Hin. reflexivity. }
    unfold bind. rewrite Hst. intros H. injection H as <- <-.
    split; [exact Hc|]. split; [reflexivity|].
    rewrite Hready, u32_sub_add_le by exact Hc. reflexivity.
  - unfold bind. simpl. intros H. injection H as <- <-.
    assert (c' = 0) by lia. subst c'.
    split; [exact Hc|].
    assert (Hw : with_cq_head (u32 (cq_head (mem w) + 0)) w = w).
    { rewrite Z.add_0_r, u32_small by exact Hh.
      unfold with_cq_head. open_world w. reflexivity. }
    split; [symmetry; exact Hw|].
    pose proof (Hready (u32 (cq_head (mem w) + 0))) as Hr0.
    rewrite Hw in Hr0. rewrite Hr0, u32_sub_add_le by exact Hc. reflexivity.
Qed.

Lemma ForEachCQE_consumes_what_it_counts_witness :
  let fn := fun userData _ _ : Z => userData <? 3 in
  let w := ring4_three_done in
  let w' := after (ForEachCQE 8 fn) w in
  0 <= 2 <= u32 (cq_tail (mem w) - cq_head (mem w)) /\
  w' = with_cq_head (u32 (cq_head (mem w) + 2)) w /\
  CQReady w' = Ret (u32 (cq_tail (mem w) - cq_head (mem w)) - 2) w'.
Proof.
  intros fn w w'.
  apply (ForEachCQE_consumes_what_it_counts 8 fn w w' 2).
  - split; by_eval.
  - split; by_eval.
  - by_eval.
Defined.

Lemma cqes_load_ready (w : World) (head : Z) :
  cq_ready w -> 0 <= head ->
  exists c, cqes_load (Z.land head (Ring.cqMask (ring w))) w = Ret c w.
Proof.
  intros Hw Hh.
  pose proof (land_mask_bound head _ Hh (cq_ready_mask w Hw)) as Hb.
  destruct (lookup_lt_is_Some_2 (cqes (mem w))
              (Z.to_nat (Z.land head (Ring.cqMask (ring w))))) as [c Hc].
  { pose proof (cq_ready_len w Hw). lia. }
  assert (Hlt : (Z.land head (Ring.cqMask (ring w)) <? Ring.cqEntries (ring w)) = true).
  { apply Z.ltb_lt. pose proof (cq_ready_entries w Hw). lia. }
  exists c. unfold cqes_load.
  open_cq w Hw; repeat (go; rewrite ?Hlt, ?Hc); reflexivity.
Qed.

(** With a callback that accepts everything and fuel for every entry
    ready, the loop runs to the tail. *)
Lemma ForEachCQE_loop_all (w : World) (tail : Z) :
  cq_ready w -> 0 <= tail < 2 ^ 32 ->
  forall (fuel : nat) (head count : Z),
    0 <= head < 2 ^ 32 ->
    (Z.to_nat (u32 (tail - head)) <= fuel)%nat ->
    ForEachCQE_loop fuel (fun _ _ _ => true) head tail count w
      = Ret (tail, count + u32 (tail - head)) w.
Proof.
  intros Hw Ht. induction fuel as [| fuel IH]; intros head count Hh Hf.
  - pose proof (u32_range (tail - head)) as Hr.
    assert (E : u32 (tail - head) = 0) by lia.
    pose proof (u32_diff_zero tail head Hh Ht E). subst head.
    simpl. rewrite Z.eqb_refl, E, Z.add_0_r. reflexivity.
  - simpl. destruct (Z.eqb_spec head tail) as [-> | Hne].
    + rewrite Z.sub_diag. change (u32 0) with 0. rewrite Z.add_0_r. reflexivity.
    + destruct (cqes_load_ready w head Hw (proj1 Hh)) as [c Hc].
      unfold bind at 1. unfold field at 1. go. rewrite Hc. simpl.
      pose proof (u32_sub_succ tail head Hh Ht Hne) as Hs.
      pose proof (u32_range (tail - u32 (head + 1))) as Hr.
      rewrite IH; [| apply u32_range | lia].
      rewrite Hs. f_equal. f_equal. lia.
Qed.

(** X19.  [ForEachCQE] with a callback that accepts every completion
    does what [DrainCQEs] does: the same count, the same world. *)
Theorem ForEachCQE_accepting_all_is_DrainCQEs :
  forall (fuel : nat) (w : World),
    cq_ready w ->
    (Z.to_nat (u32 (cq_tail (mem w) - cq_head (mem w))) <= fuel)%nat ->
    ForEachCQE fuel (fun _ _ _ => true) w = DrainCQEs w.
Proof.
  intros fuel w Hw Hf.
  pose proof (ForEachCQE_loop_all w (cq_tail (mem w)) Hw (cq_ready_tail w Hw)
                fuel (cq_head (mem w)) 0 (cq_ready_head w Hw) Hf) as Hloop.
  revert Hloop. unfold ForEachCQE, DrainCQEs.
  open_cq w Hw; go; intros Hloop; rewrite Hloop; go; reflexivity.
Qed.

Lemma ForEachCQE_accepting_all_is_DrainCQEs_witness :
  ForEachCQE 5 (fun _ _ _ => true) ring4_three_done = DrainCQEs ring4_three_done.
Proof.
  apply (ForEachCQE_accepting_all_is_DrainCQEs 5 ring4_three_done).
  - split; try by_eval. exists RegCQ. split; by_eval.
  - vm_compute. lia.
Defined.

(** ** Waiting for a completion *)

Lemma PeekCQE_ready (w : World) :
  cq_ready w -> ~ cq_empty w ->
  exists u r f, PeekCQE w = Ret (u, r, f, true) w.
Proof.
  intros Hw Hne. unfold cq_empty in Hne.
  destruct (cqes_load_ready w (cq_head (mem w)) Hw (proj1 (cq_ready_head w Hw)))
    as [c Hc].
  apply Z.eqb_neq in Hne.
  exists (CQE.UserData c), (CQE.Res c), (CQE.Flags c).
  revert Hc. unfold PeekCQE.
  open_cq w Hw; repeat (go; rewrite ?Hne); intros Hc; rewrite Hc; reflexivity.
Qed.


(** X20.  A completion that is already in the queue is returned at
    once: on an open ring [WaitCQE], [WaitCQETimeout] and
    [WaitCQEContext] return what [PeekCQE] returns, with no system call
    and the world untouched, whatever the timeout, also when it is zero
    or negative, and also when the context is already done. *)
Theorem wait_returns_ready_completion_at_once :
  forall (K : Kernel) (fuel : nat) (timeout : Z) (ctx : Context) (w : World),
    Ring.closed (ring w) = false ->
    cq_ready w -> ~ cq_empty w ->
    exists u r f,
      PeekCQE w = Ret (u, r, f, true) w /\
      WaitCQE K w = Ret (u, r, f, None) w /\
      WaitCQETimeout K fuel timeout w = Ret (u, r, f, None) w /\
      WaitCQEContext K fuel ctx w = Ret (u, r, f, None) w.
Proof.
  intros K fuel timeout ctx w Hc Hw Hne.
  destruct (PeekCQE_ready w Hw Hne) as (u & r & f & Hp).
  exists u, r, f. split; [exact Hp|].
  unfold WaitCQE, WaitCQETimeout, WaitCQEContext.
  repeat split; unfold bind at 1; unfold closed_Load, field, bind, get, ret;
    rewrite Hc, Hp; reflexivity.
Qed.

Lemma wait_returns_ready_completion_at_once_witness :
  let K := stalled_kernel 0 in
  let w := ring4_three_done in
  exists u r f,
    PeekCQE w = Ret (u, r, f, true) w /\
    WaitCQE K w = Ret (u, r, f, None) w /\
    WaitCQETimeout K 0 (-1) w = Ret (u, r, f, None) w /\
    WaitCQEContext K 0 (fun _ => Some (CtxErr 1)) w = Ret (u, r, f, None) w.
Proof.
  intros K w.
  apply (wait_returns_ready_completion_at_once K 0 (-1) (fun _ => Some (CtxErr 1)) w).
  - by_eval.
  - split; try by_eval. exists RegCQ. split; by_eval.
  - by_eval.
Defined.

Lemma PeekCQE_ok (w w' : World) (u r f : Z) (ok : bool) :
  PeekCQE w = Ret (u, r, f, ok) w' -> PeekCQE w' = Ret (u, r, f, ok) w'.
Proof.
  intros H. pose proof (PeekCQE_reads_only _ _ _ H). subst w'. exact H.
Qed.

Ltac peek_or_go H Hp :=
  apply bind_Ret in H; destruct H as ([[[? ?] ?] [|]] & ? & Hp & H);
  apply PeekCQE_ok in Hp;
  [ injection H as <- <- <- <-; exact Hp |].

Lemma WaitCQE_ok (K : Kernel) (w w' : World) (u r f : Z) :
  WaitCQE K w = Ret (u, r, f, None) w' -> PeekCQE w' = Ret (u, r, f, true) w'.
Proof.
  unfold WaitCQE. intros H.
  apply bind_Ret in H. destruct H as ([|] & w1 & _ & H); [discriminate H|].
  peek_or_go H Hp.
  apply bind_Ret in H. destruct H as ([n [e|]] & w2 & _ & H); [discriminate H|].
  peek_or_go H Hp2. discriminate H.
Qed.

Lemma poll_loop_ok (K : Kernel) (fuel : nat) :
  forall (deadline : Z) (w w' : World) (u r f : Z),
    waitCQETimeoutPoll_loop K fuel deadline w = Ret (u, r, f, None) w' ->
    PeekCQE w' = Ret (u, r, f, true) w'.
Proof.
  induction fuel as [| fuel IH]; intros deadline w w' u r f H; simpl in H;
    [discriminate H|].
  peek_or_go H Hp.
  apply bind_Ret in H. destruct H as (w2 & w3 & _ & H).
  destruct (_ <=? 0); [discriminate H|].
  apply bind_Ret in H. destruct H as ([n [e|]] & w4 & _ & H).
  - destruct (is_errno EINTR e); [exact (IH _ _ _ _ _ _ H) | discriminate H].
  - exact (IH _ _ _ _ _ _ H).
Qed.

Lemma WaitCQETimeout_ok (K : Kernel) (fuel : nat) (timeout : Z) (w w' : World)
    (u r f : Z) :
  WaitCQETimeout K fuel timeout w = Ret (u, r, f, None) w' ->
  PeekCQE w' = Ret (u, r, f, true) w'.
Proof.
  unfold WaitCQETimeout. intros H.
  apply bind_Ret in H. destruct H as ([|] & w1 & _ & H); [discriminate H|].
  peek_or_go H Hp.
  apply bind_Ret in H. destruct H as ([|] & w2 & _ & H); simpl in H.
  - apply bind_Ret in H. destruct H as (? & w3 & _ & H).
    apply bind_Ret in H. destruct H as (? & w4 & _ & H).
    apply bind_Ret in H. destruct H as (? & w5 & _ & H).
    apply bind_Ret in H. destruct H as (? & w6 & _ & H).
    apply bind_Ret in H. destruct H as (? & w7 & _ & H).
    apply bind_Ret in H. destruct H as ([n [e|]] & w8 & _ & H); [discriminate H|].
    peek_or_go H Hp2. discriminate H.
  - unfold waitCQETimeoutPoll in H.
    apply bind_Ret in H. destruct H as (? & w3 & _ & H).
    exact (poll_loop_ok _ _ _ _ _ _ _ _ H).
Qed.

Lemma context_loop_ok (K : Kernel) (ctx : Context) (fuel : nat) :
  forall (w w' : World) (u r f : Z),
    WaitCQEContext_loop K fuel ctx w = Ret (u, r, f, None) w' ->
    PeekCQE w' = Ret (u, r, f, true) w'.
Proof.
  induction fuel as [| fuel IH]; intros w w' u r f H; simpl in H; [discriminate H|].
  apply bind_Ret in H. destruct H as (w0 & w1 & _ & H).
  destruct (ctx (now w0)); [discriminate H|].
  apply bind_Ret in H. destruct H as ([[[u0 r0] f0] [e|]] & w2 & Hw & H).
  - destruct (is_errno ETIME e); [exact (IH _ _ _ _ _ H) | discriminate H].
  - injection H as <- <- <- <-. exact (WaitCQETimeout_ok _ _ _ _ _ _ _ _ Hw).
Qed.

(** X21.  A wait that succeeds does not consume.  When [WaitCQE],
    [WaitCQETimeout] or [WaitCQEContext] returns a completion with a nil
    error, that completion is at the head of the queue when the call
    returns: [PeekCQE] returns it again, until the caller marks it seen. *)
Theorem successful_wait_leaves_completion_at_head :
  forall (K : Kernel) (fuel : nat) (timeout : Z) (ctx : Context)
         (w w' : World) (u r f : Z),
    WaitCQE K w = Ret (u, r, f, None) w' \/
    WaitCQETimeout K fuel timeout w = Ret (u, r, f, None) w' \/
    WaitCQEContext K fuel ctx w = Ret (u, r, f, None) w' ->
    PeekCQE w' = Ret (u, r, f, true) w'.
Proof.
  intros K fuel timeout ctx w w' u r f [H | [H | H]].
  - exact (WaitCQE_ok _ _ _ _ _ _ H).
  - exact (WaitCQETimeout_ok _ _ _ _ _ _ _ _ H).
  - unfold WaitCQEContext in H.
    apply bind_Ret in H. destruct H as ([|] & w1 & _ & H); [discriminate H|].
    peek_or_go H Hp.
    exact (context_loop_ok _ _ _ _ _ _ _ _ H).
Qed.

Lemma successful_wait_leaves_completion_at_head_witness :
  let K := nop_kernel 0 in
  let w := after (PrepNop 9) ring4 in
  let w' := after (WaitCQE K) w in
  PeekCQE w' = Ret (9, 0, 0, true) w'.
Proof.
  intros K w w'.
  apply (successful_wait_leaves_completion_at_head K 0 0 (fun _ => None) w w' 9 0 0).
  left. by_eval.
Defined.







(** ** Registration *)

(** X25.  [RegisterBuffers] and [RegisterFiles] refuse an empty list with
    [EINVAL] before any system call; otherwise each makes exactly one
    [io_uring_register] call on the ring descriptor, with its own opcode
    and the number of elements as [nr_args], returns the kernel's answer
    and leaves the ring and the mapped memory as they were.  Neither looks
    at the closed flag. *)
Theorem registration_counts_its_arguments :
  forall (K : Kernel) (w : World) (bufs : list (Slice Z)) (fds : list Z),
    Z.of_nat (length bufs) < 2 ^ 32 ->
    Z.of_nat (length fds) < 2 ^ 32 ->
    RegisterBuffers K [] w = Ret (Some (Errno EINVAL)) w /\
    RegisterFiles K [] w = Ret (Some (Errno EINVAL)) w /\
    (bufs <> [] ->
     RegisterBuffers K bufs w
       = Ret (of_errno (sys_register K w (Ring.fd (ring w)) IORING_REGISTER_BUFFERS
                          (Z.of_nat (length bufs))))
             (log (EvRegister (Ring.fd (ring w)) IORING_REGISTER_BUFFERS
                     (Z.of_nat (length bufs))) w)) /\
    (fds <> [] ->
     RegisterFiles K fds w
       = Ret (of_errno (sys_register K w (Ring.fd (ring w)) IORING_REGISTER_FILES
                          (Z.of_nat (length fds))))
             (log (EvRegister (Ring.fd (ring w)) IORING_REGISTER_FILES
                     (Z.of_nat (length fds))) w)).
Proof.
  intros K w bufs fds Hb Hf.
  split; [reflexivity|]. split; [reflexivity|]. split.
  - intros Hne.
    assert (E : (Z.of_nat (length bufs) =? 0) = false)
      by (apply Z.eqb_neq; destruct bufs; [congruence | simpl length; lia]).
    unfold RegisterBuffers, sys_RegisterBuffers. rewrite E.
    unfold bind, field, get, ret, Register, update, log. cbv beta iota zeta.
    rewrite length_map, E, u32_small by lia. reflexivity.
  - intros Hne.
    assert (E : (Z.of_nat (length fds) =? 0) = false)
      by (apply Z.eqb_neq; destruct fds; [congruence | simpl length; lia]).
    unfold RegisterFiles, sys_RegisterFiles. rewrite E.
    unfold bind, field, get, ret, Register, update, log. cbv beta iota zeta.
    rewrite length_map, E, u32_small by lia. reflexivity.
Qed.

Lemma registration_counts_its_arguments_witness :
  let K := nop_kernel 0 in
  let w := after (Close K) ring4 in
  let bufs := [mkSlice 4096 [0; 0]; mkSlice 8192 []] in
  let fds := [5; 6; 7] in
  RegisterBuffers K [] w = Ret (Some (Errno EINVAL)) w /\
  RegisterFiles K [] w = Ret (Some (Errno EINVAL)) w /\
  (bufs <> [] ->
   RegisterBuffers K bufs w
     = Ret (of_errno (sys_register K w (Ring.fd (ring w)) IORING_REGISTER_BUFFERS
                        (Z.of_nat (length bufs))))
           (log (EvRegister (Ring.fd (ring w)) IORING_REGISTER_BUFFERS
                   (Z.of_nat (length bufs))) w)) /\
  (fds <> [] ->
   RegisterFiles K fds w
     = Ret (of_errno (sys_register K w (Ring.fd (ring w)) IORING_REGISTER_FILES
                        (Z.of_nat (length fds))))
           (log (EvRegister (Ring.fd (ring w)) IORING_REGISTER_FILES
                   (Z.of_nat (length fds))) w)).
Proof.
  intros K w bufs fds.
  apply (registration_counts_its_arguments K w bufs fds).
  - by_eval.
  - by_eval.
Defined.

(** ** Results and flags of a completion *)

(** X26.  [ResultError] is nil exactly for the results that are not
    negative, and for a negative result it is the errno whose negation
    the kernel stored: [ResultError (- e)] is [Errno e] for every [e] an
    [int32] can hold.  The one result whose negation does not fit,
    [-2^31], becomes the errno [2^64 - 2^31]. *)
Theorem ResultError_recovers_errno :
  forall (res : Z),
    - 2 ^ 31 <= res < 2 ^ 31 ->
    (ResultError res = None <-> 0 <= res) /\
    (- 2 ^ 31 < res < 0 -> ResultError res = Some (Errno (- res))) /\
    ResultError (- 2 ^ 31) = Some (Errno (2 ^ 64 - 2 ^ 31)).
Proof.
  intros res Hr. unfold ResultError. split; [| split; [| reflexivity]].
  - destruct (Z.geb_spec res 0) as [Hge | Hlt]; split; intros H; try reflexivity;
      try discriminate H; lia.
  - intros Hn. destruct (Z.geb_spec res 0) as [Hge | Hlt]; [lia|].
    do 2 f_equal. unfold i32, u64.
    rewrite (Z.mod_small (- res + 2 ^ 31)) by lia.
    replace (- res + 2 ^ 31 - 2 ^ 31) with (- res) by lia.
    apply Z.mod_small. lia.
Qed.

Lemma ResultError_recovers_errno_witness :
  (ResultError (- EAGAIN) = None <-> 0 <= - EAGAIN) /\
  (- 2 ^ 31 < - EAGAIN < 0 -> ResultError (- EAGAIN) = Some (Errno (- - EAGAIN))) /\
  ResultError (- 2 ^ 31) = Some (Errno (2 ^ 64 - 2 ^ 31)).
Proof.
  apply (ResultError_recovers_errno (- EAGAIN)). unfold EAGAIN. lia.
Defined.

Lemma testbit_below (a n : Z) : 0 <= a < 2 ^ 16 -> 16 <= n -> Z.testbit a n = false.
Proof.
  intros Ha Hn. destruct (Z.eq_dec a 0) as [-> | Hz]; [apply Z.bits_0|].
  apply Z.bits_above_log2; [lia|].
  assert (Z.log2 a < 16) by (apply Z.log2_lt_pow2; lia). lia.
Qed.

(** X27.  The upper and the lower half of a completion's flags do not
    mix.  For a flag word made of a buffer id in the upper 16 bits and
    flag bits in the lower 16, [GetBufID] returns the buffer id, and
    [HasMore] and [IsNotification] are decided by the lower half alone. *)
Theorem completion_flag_accessors :
  forall (userData res bid low : Z),
    0 <= bid < 2 ^ 16 -> 0 <= low < 2 ^ 16 ->
    let c := CQE.mk userData res (Z.lor (Z.shiftl bid 16) low) in
    GetBufID c = bid /\
    HasMore c = Z.testbit low 1 /\
    IsNotification c = Z.testbit low 3.
Proof.
  intros userData res bid low Hb Hl c. subst c.
  unfold GetBufID, HasMore, IsNotification. simpl.
  assert (Hbit : forall k, 0 <= k < 16 ->
            negb (Z.land (Z.lor (Z.shiftl bid 16) low) (2 ^ k) =? 0) = Z.testbit low k).
  { intros k Hk.
    replace (Z.land (Z.lor (Z.shiftl bid 16) low) (2 ^ k))
      with (if Z.testbit low k then 2 ^ k else 0).
    - destruct (Z.testbit low k); [| reflexivity].
      assert (0 < 2 ^ k) by (apply Z.pow_pos_nonneg; lia).
      destruct (Z.eqb_spec (2 ^ k) 0); [lia | reflexivity].
    - apply Z.bits_inj'. intros n Hn.
      rewrite Z.land_spec, Z.lor_spec, Z.shiftl_spec by lia.
      rewrite Z.pow2_bits_eqb by lia.
      destruct (Z.eqb_spec k n) as [<- | Hne].
      + rewrite (Z.testbit_neg_r bid) by lia. simpl.
        rewrite andb_true_r.
        destruct (Z.testbit low k); [| apply Z.bits_0].
        rewrite Z.pow2_bits_eqb, Z.eqb_refl by lia. reflexivity.
      + rewrite andb_false_r.
        destruct (Z.testbit low k); [| apply Z.bits_0].
        rewrite Z.pow2_bits_eqb by lia.
        destruct (Z.eqb_spec k n); [contradiction | reflexivity]. }
  split; [| split].
  - rewrite Z.shiftr_lor, Z.shiftr_shiftl_l, Z.sub_diag, Z.shiftl_0_r by lia.
    replace (Z.shiftr low 16) with 0.
    + rewrite Z.lor_0_r. unfold u16. apply Z.mod_small. exact Hb.
    + symmetry. apply Z.bits_inj'. intros n Hn.
      rewrite Z.shiftr_spec, Z.bits_0 by lia. apply testbit_below; [exact Hl | lia].
  - apply (Hbit 1). lia.
  - apply (Hbit 3). lia.
Qed.

Lemma completion_flag_accessors_witness :
  let c := CQE.mk 7 0 (Z.lor (Z.shiftl 513 16) 3) in
  GetBufID c = 513 /\
  HasMore c = Z.testbit 3 1 /\
  IsNotification c = Z.testbit 3 3.
Proof.
  apply (completion_flag_accessors 7 0 513 3); lia.
Defined.

(** ** The table of supported operations *)

(** X28.  [SupportsOp] indexes an array of [IORING_OP_LAST] elements
    after comparing the operation code with the kernel's [LastOp] only.
    It answers false for every code above [LastOp]; it answers, without
    a panic, for every code below [IORING_OP_LAST]; and the index is out
    of range exactly for the codes from [IORING_OP_LAST] up to [LastOp],
    which exist when the kernel knows more operations than this
    library. *)
Theorem SupportsOp_index_range :
  forall (p : RingProbe) (op : Z),
    0 <= op < 2 ^ 8 ->
    (LastOp (probe p) < op -> SupportsOp p op = Some false) /\
    (op < IORING_OP_LAST -> SupportsOp p op <> None) /\
    (SupportsOp p op = None <-> IORING_OP_LAST <= op <= LastOp (probe p)).
Proof.
  intros p op Ho. unfold SupportsOp, Ops_at.
  assert (Hu : u8 op = op) by (unfold u8; apply Z.mod_small; exact Ho).
  rewrite Hu.
  destruct (Z.gtb_spec op (LastOp (probe p))) as [Hgt | Hle];
    destruct (Z.ltb_spec op IORING_OP_LAST) as [Hlt | Hge].
  all: split; [intros H; try reflexivity; lia|].
  all: split; [intros H; try discriminate; lia|].
  all: split; intros H; try discriminate H; try reflexivity; lia.
Qed.

Lemma SupportsOp_index_range_witness :
  let p := Build_RingProbe (Build_SysProbe 60 58 []) 0 in
  (LastOp (probe p) < 59 -> SupportsOp p 59 = Some false) /\
  (59 < IORING_OP_LAST -> SupportsOp p 59 <> None) /\
  (SupportsOp p 59 = None <-> IORING_OP_LAST <= 59 <= LastOp (probe p)).
Proof.
  intros p. apply (SupportsOp_index_range p 59). lia.
Defined.
